(** * Readest plugin runtime: a shallow embedding of the host-side bridges

    The development follows the TypeScript sources file by file:

    - [PluginStore]      store/pluginStore.ts (the UI registries)
    - [TypeMappers]      services/plugins/typeMappers.ts
    - [AnnotationData]   services/plugins/providers/ReadestAnnotationDataProvider.ts
    - [BookData]         services/plugins/providers/ReadestBookDataProvider.ts
                         and ReadestHostAPIProvider.createBookAPI
    - [ProcessSpawner]   services/plugins/providers/TauriProcessSpawner.ts
    - [PluginInit]       services/plugins/pluginInitService.ts
    - [WebFileSystem]    services/plugins/providers/TauriFileSystem.ts
                         (the localStorage fallback)

    JavaScript numbers that the code uses as indices, counts and millisecond
    timestamps are integers of [Z], the code's within [JS.MAX_SAFE_INTEGER];
    strings are [string]; [Map<string, _>] is
    a [gmap string _]; arrays are lists.  Stateful code is written in
    state-passing style, and a closure that reads the store when it is called
    is a function of the store. *)

From Stdlib Require Import ZArith Lia Ascii String.
From Stdlib Require Import DecimalString DecimalZ.
From stdpp Require Import gmap strings list.

Local Open Scope string_scope.
Local Open Scope list_scope.
Local Open Scope Z_scope.

(* ====================================================================== *)
(** * store/pluginStore.ts *)
(* ====================================================================== *)

Module PluginStore.

(** The SDK interfaces [ToolbarButton], [ContextMenuItem] and [StatusBarItem]
    are declared outside this code; the store only ever reads their [id]. *)
Class Identified (E : Type) := id_of : E → string.

(** A concrete entry shape to run the store on: an id and a label. *)
Definition LabelledEntry : Type := string * string.

#[export] Instance LabelledEntry_id : Identified LabelledEntry := fst.

Section Store.
(** React component references and the three SDK entry interfaces. *)
Context {PanelComponent SettingsComponent : Type}.
Context {ToolbarButton ContextMenuItem StatusBarItem : Type}.
Context `{!Identified ToolbarButton, !Identified ContextMenuItem,
          !Identified StatusBarItem}.

Record PluginPanelEntry := {
  panel_pluginId : string;
  panelId : string;
  panel_component : PanelComponent;
  visible : bool;
}.

Record PluginSettingsEntry := {
  settings_pluginId : string;
  settings_component : SettingsComponent;
}.

Record PluginStoreState := {
  pluginPanels : gmap string PluginPanelEntry;
  pluginToolbarButtons : list ToolbarButton;
  pluginContextMenuItems : list ContextMenuItem;
  pluginStatusBarItems : list StatusBarItem;
  pluginSettingsPages : gmap string PluginSettingsEntry;
  initialized : bool;
  pluginCount : Z;
}.

(** The state [create] starts from. *)
Definition initialState : PluginStoreState :=
  {| pluginPanels := ∅;
     pluginToolbarButtons := [];
     pluginContextMenuItems := [];
     pluginStatusBarItems := [];
     pluginSettingsPages := ∅;
     initialized := false;
     pluginCount := 0 |}.

(** [set] with a partial state: one setter per field. *)
Definition set_pluginPanels (f : gmap string PluginPanelEntry → gmap string PluginPanelEntry)
    (s : PluginStoreState) : PluginStoreState :=
  {| pluginPanels := f (pluginPanels s);
     pluginToolbarButtons := pluginToolbarButtons s;
     pluginContextMenuItems := pluginContextMenuItems s;
     pluginStatusBarItems := pluginStatusBarItems s;
     pluginSettingsPages := pluginSettingsPages s;
     initialized := initialized s;
     pluginCount := pluginCount s |}.

Definition set_pluginToolbarButtons (f : list ToolbarButton → list ToolbarButton)
    (s : PluginStoreState) : PluginStoreState :=
  {| pluginPanels := pluginPanels s;
     pluginToolbarButtons := f (pluginToolbarButtons s);
     pluginContextMenuItems := pluginContextMenuItems s;
     pluginStatusBarItems := pluginStatusBarItems s;
     pluginSettingsPages := pluginSettingsPages s;
     initialized := initialized s;
     pluginCount := pluginCount s |}.

Definition set_pluginContextMenuItems (f : list ContextMenuItem → list ContextMenuItem)
    (s : PluginStoreState) : PluginStoreState :=
  {| pluginPanels := pluginPanels s;
     pluginToolbarButtons := pluginToolbarButtons s;
     pluginContextMenuItems := f (pluginContextMenuItems s);
     pluginStatusBarItems := pluginStatusBarItems s;
     pluginSettingsPages := pluginSettingsPages s;
     initialized := initialized s;
     pluginCount := pluginCount s |}.

Definition set_pluginStatusBarItems (f : list StatusBarItem → list StatusBarItem)
    (s : PluginStoreState) : PluginStoreState :=
  {| pluginPanels := pluginPanels s;
     pluginToolbarButtons := pluginToolbarButtons s;
     pluginContextMenuItems := pluginContextMenuItems s;
     pluginStatusBarItems := f (pluginStatusBarItems s);
     pluginSettingsPages := pluginSettingsPages s;
     initialized := initialized s;
     pluginCount := pluginCount s |}.

Definition set_pluginSettingsPages
    (f : gmap string PluginSettingsEntry → gmap string PluginSettingsEntry)
    (s : PluginStoreState) : PluginStoreState :=
  {| pluginPanels := pluginPanels s;
     pluginToolbarButtons := pluginToolbarButtons s;
     pluginContextMenuItems := pluginContextMenuItems s;
     pluginStatusBarItems := pluginStatusBarItems s;
     pluginSettingsPages := f (pluginSettingsPages s);
     initialized := initialized s;
     pluginCount := pluginCount s |}.

Definition setInitialized (b : bool) (s : PluginStoreState) : PluginStoreState :=
  {| pluginPanels := pluginPanels s;
     pluginToolbarButtons := pluginToolbarButtons s;
     pluginContextMenuItems := pluginContextMenuItems s;
     pluginStatusBarItems := pluginStatusBarItems s;
     pluginSettingsPages := pluginSettingsPages s;
     initialized := b;
     pluginCount := pluginCount s |}.

Definition setPluginCount (count : Z) (s : PluginStoreState) : PluginStoreState :=
  {| pluginPanels := pluginPanels s;
     pluginToolbarButtons := pluginToolbarButtons s;
     pluginContextMenuItems := pluginContextMenuItems s;
     pluginStatusBarItems := pluginStatusBarItems s;
     pluginSettingsPages := pluginSettingsPages s;
     initialized := initialized s;
     pluginCount := count |}.

(** A cleanup function calls [get()] when it runs: it is a function of the
    store it is run on, not of the store it was created in. *)
Definition Cleanup : Type := PluginStoreState → PluginStoreState.

(** ** Panel actions *)

Definition unregisterPanel (pid : string) : Cleanup :=
  set_pluginPanels (λ panels, delete pid panels).

Definition registerPanel (pluginId pid : string) (component : PanelComponent)
    (s : PluginStoreState) : PluginStoreState * Cleanup :=
  let entry := {| panel_pluginId := pluginId; panelId := pid;
                  panel_component := component; visible := false |} in
  (set_pluginPanels (λ panels, <[pid := entry]> panels) s,
   unregisterPanel pid).

Definition setPanelVisible (pid : string) (v : bool) (s : PluginStoreState)
    : PluginStoreState :=
  match pluginPanels s !! pid with
  | None => s
  | Some existing =>
      set_pluginPanels
        (λ panels, <[pid := {| panel_pluginId := panel_pluginId existing;
                               panelId := panelId existing;
                               panel_component := panel_component existing;
                               visible := v |}]> panels) s
  end.

(** ** Toolbar actions *)

Definition unregisterToolbarButton (buttonId : string) : Cleanup :=
  set_pluginToolbarButtons (λ bs, filter (λ b, id_of b ≠ buttonId) bs).

Definition registerToolbarButton (button : ToolbarButton) (s : PluginStoreState)
    : PluginStoreState * Cleanup :=
  (set_pluginToolbarButtons
     (λ bs, filter (λ b, id_of b ≠ id_of button) bs ++ [button]) s,
   unregisterToolbarButton (id_of button)).

(** ** Context menu actions *)

Definition unregisterContextMenuItem (itemId : string) : Cleanup :=
  set_pluginContextMenuItems (λ items, filter (λ i, id_of i ≠ itemId) items).

Definition registerContextMenuItem (item : ContextMenuItem) (s : PluginStoreState)
    : PluginStoreState * Cleanup :=
  (set_pluginContextMenuItems
     (λ items, filter (λ i, id_of i ≠ id_of item) items ++ [item]) s,
   unregisterContextMenuItem (id_of item)).

(** ** Status bar actions *)

Definition unregisterStatusBarItem (itemId : string) : Cleanup :=
  set_pluginStatusBarItems (λ items, filter (λ i, id_of i ≠ itemId) items).

Definition registerStatusBarItem (item : StatusBarItem) (s : PluginStoreState)
    : PluginStoreState * Cleanup :=
  (set_pluginStatusBarItems
     (λ items, filter (λ i, id_of i ≠ id_of item) items ++ [item]) s,
   unregisterStatusBarItem (id_of item)).

(** ** Settings page actions *)

Definition unregisterSettingsPage (pluginId : string) : Cleanup :=
  set_pluginSettingsPages (λ pages, delete pluginId pages).

Definition registerSettingsPage (pluginId : string) (component : SettingsComponent)
    (s : PluginStoreState) : PluginStoreState * Cleanup :=
  let entry := {| settings_pluginId := pluginId; settings_component := component |} in
  (set_pluginSettingsPages (λ pages, <[pluginId := entry]> pages) s,
   unregisterSettingsPage pluginId).

(** ** The register operations, collected

    The three id-keyed sequences share one shape; [IdRegistry] names them so
    that a statement can range over all three. *)

Inductive IdRegistry := ToolbarButtons | ContextMenuItems | StatusBarItems.

Definition entry (r : IdRegistry) : Type :=
  match r with
  | ToolbarButtons => ToolbarButton
  | ContextMenuItems => ContextMenuItem
  | StatusBarItems => StatusBarItem
  end.

Definition entry_id (r : IdRegistry) : entry r → string :=
  match r with
  | ToolbarButtons => id_of
  | ContextMenuItems => id_of
  | StatusBarItems => id_of
  end.

Definition entries (r : IdRegistry) : PluginStoreState → list (entry r) :=
  match r with
  | ToolbarButtons => pluginToolbarButtons
  | ContextMenuItems => pluginContextMenuItems
  | StatusBarItems => pluginStatusBarItems
  end.

Definition registerEntry (r : IdRegistry)
    : entry r → PluginStoreState → PluginStoreState * Cleanup :=
  match r with
  | ToolbarButtons => registerToolbarButton
  | ContextMenuItems => registerContextMenuItem
  | StatusBarItems => registerStatusBarItem
  end.

(** Every register operation of the store, with its arguments. *)
Inductive Registration :=
| RegisterPanel (pluginId pid : string) (component : PanelComponent)
| RegisterToolbarButton (button : ToolbarButton)
| RegisterContextMenuItem (item : ContextMenuItem)
| RegisterStatusBarItem (item : StatusBarItem)
| RegisterSettingsPage (pluginId : string) (component : SettingsComponent).

Definition register (reg : Registration) (s : PluginStoreState)
    : PluginStoreState * Cleanup :=
  match reg with
  | RegisterPanel pluginId pid component => registerPanel pluginId pid component s
  | RegisterToolbarButton button => registerToolbarButton button s
  | RegisterContextMenuItem item => registerContextMenuItem item s
  | RegisterStatusBarItem item => registerStatusBarItem item s
  | RegisterSettingsPage pluginId component => registerSettingsPage pluginId component s
  end.

(** Whether the key a registration is filed under is present in the store. *)
Definition key_registered (reg : Registration) (s : PluginStoreState) : Prop :=
  match reg with
  | RegisterPanel _ pid _ => is_Some (pluginPanels s !! pid)
  | RegisterToolbarButton button =>
      id_of button ∈ id_of <$> pluginToolbarButtons s
  | RegisterContextMenuItem item =>
      id_of item ∈ id_of <$> pluginContextMenuItems s
  | RegisterStatusBarItem item =>
      id_of item ∈ id_of <$> pluginStatusBarItems s
  | RegisterSettingsPage pluginId _ => is_Some (pluginSettingsPages s !! pluginId)
  end.

(** ** The remaining actions of the store *)

(** [{ ...item, ...updates }]: the fields of the SDK's [StatusBarItem] and of
    a partial update are declared outside this code; merging the one into
    the other is left to [applyUpdates]. *)
Context {StatusBarUpdates : Type}.
Variable applyUpdates : StatusBarItem → StatusBarUpdates → StatusBarItem.

Definition updateStatusBarItem (itemId : string) (updates : StatusBarUpdates)
    : PluginStoreState → PluginStoreState :=
  set_pluginStatusBarItems
    (λ items,
       (λ item, if decide (id_of item = itemId) then applyUpdates item updates
                else item) <$> items).

(** The actions of the store, all of them: the five registrations, the five
    unregistrations, the panel visibility, the update of a status-bar item
    and the two system setters. *)
Inductive StoreAction :=
| DoRegister (reg : Registration)
| DoUnregisterPanel (pid : string)
| DoUnregisterToolbarButton (buttonId : string)
| DoUnregisterContextMenuItem (itemId : string)
| DoUnregisterStatusBarItem (itemId : string)
| DoUpdateStatusBarItem (itemId : string) (updates : StatusBarUpdates)
| DoUnregisterSettingsPage (pluginId : string)
| DoSetPanelVisible (pid : string) (v : bool)
| DoSetInitialized (b : bool)
| DoSetPluginCount (count : Z).

Definition act (a : StoreAction) (s : PluginStoreState) : PluginStoreState :=
  match a with
  | DoRegister reg => (register reg s).1
  | DoUnregisterPanel pid => unregisterPanel pid s
  | DoUnregisterToolbarButton buttonId => unregisterToolbarButton buttonId s
  | DoUnregisterContextMenuItem itemId => unregisterContextMenuItem itemId s
  | DoUnregisterStatusBarItem itemId => unregisterStatusBarItem itemId s
  | DoUpdateStatusBarItem itemId updates => updateStatusBarItem itemId updates s
  | DoUnregisterSettingsPage pluginId => unregisterSettingsPage pluginId s
  | DoSetPanelVisible pid v => setPanelVisible pid v s
  | DoSetInitialized b => setInitialized b s
  | DoSetPluginCount count => setPluginCount count s
  end.

Definition actAll (actions : list StoreAction) (s : PluginStoreState)
    : PluginStoreState :=
  foldl (λ s' a, act a s') s actions.

(** No two entries of an id-keyed sequence share an id. *)
Definition uniqueIds (s : PluginStoreState) : Prop :=
  NoDup (id_of <$> pluginToolbarButtons s)
  ∧ NoDup (id_of <$> pluginContextMenuItems s)
  ∧ NoDup (id_of <$> pluginStatusBarItems s).

(** An update that leaves the id of the item alone: the partial item it
    merges in has no [id] field. *)
Definition keepsId (updates : StatusBarUpdates) : Prop :=
  ∀ item, id_of (applyUpdates item updates) = id_of item.

(** The updates of an action; only [updateStatusBarItem] takes any. *)
Definition updatesKeepId (a : StoreAction) : Prop :=
  match a with
  | DoUpdateStatusBarItem _ updates => keepsId updates
  | _ => True
  end.

(** A panel entry with another visibility. *)
Definition withVisible (v : bool) (e : PluginPanelEntry) : PluginPanelEntry :=
  {| panel_pluginId := panel_pluginId e; panelId := panelId e;
     panel_component := panel_component e; visible := v |}.

(** ** Facts about the id-keyed sequences *)

Lemma filter_id_idemp {E} `{!Identified E} (k : string) (l : list E) :
  filter (λ x, id_of x ≠ k) (filter (λ x, id_of x ≠ k) l)
  = filter (λ x, id_of x ≠ k) l.
Proof.
  rewrite list_filter_filter. apply list_filter_iff. intros x. tauto.
Qed.

Lemma filter_id_absent {E} `{!Identified E} (k : string) (l : list E) :
  k ∉ id_of <$> filter (λ x, id_of x ≠ k) l.
Proof.
  intros Hin. apply list_elem_of_fmap in Hin as (x & Hk & Hx).
  apply list_elem_of_filter in Hx as [Hne _]. congruence.
Qed.

Lemma register_id_present {E} `{!Identified E} (e : E) (l : list E) :
  id_of e ∈ id_of <$> (filter (λ x, id_of x ≠ id_of e) l ++ [e]).
Proof.
  rewrite fmap_app. apply elem_of_app. right. simpl. apply list_elem_of_here.
Qed.

(** Four registrations in a row on one sequence: A, B, C, then B' under B's
    id.  What was there before keeps its order, less the entries filed under
    one of the three ids. *)
Lemma register_sequence {E} `{!Identified E} (l : list E) (A B C B' : E) :
  id_of A ≠ id_of B → id_of A ≠ id_of C → id_of B ≠ id_of C →
  id_of B' = id_of B →
  filter (λ x, id_of x ≠ id_of B')
    (filter (λ x, id_of x ≠ id_of C)
       (filter (λ x, id_of x ≠ id_of B)
          (filter (λ x, id_of x ≠ id_of A) l ++ [A]) ++ [B]) ++ [C]) ++ [B']
  = filter (λ x, id_of x ≠ id_of A ∧ id_of x ≠ id_of B ∧ id_of x ≠ id_of C) l
    ++ [A; C; B'].
Proof.
  intros HAB HAC HBC HB'.
  rewrite HB'.
  repeat (progress (rewrite ?filter_app, ?filter_cons, ?filter_nil);
          repeat case_decide; try congruence; simpl).
  rewrite !list_filter_filter, <- !(assoc_L (++)). simpl.
  f_equal. apply list_filter_iff. intros x. tauto.
Qed.

(** Registering under an id that one entry of the sequence has: that entry
    goes, the others stay as they are, the new one comes last. *)
Lemma register_replaces {E} `{!Identified E} (l1 l2 : list E) (old e : E) :
  id_of old = id_of e →
  Forall (λ x, id_of x ≠ id_of e) (l1 ++ l2) →
  filter (λ x, id_of x ≠ id_of e) (l1 ++ old :: l2) ++ [e] = l1 ++ l2 ++ [e].
Proof.
  intros Hold Hothers. apply Forall_app in Hothers as [H1 H2].
  assert (∀ l : list E, Forall (λ x, id_of x ≠ id_of e) l →
            filter (λ x, id_of x ≠ id_of e) l = l) as Hkeep.
  { induction 1 as [|x l Hx _ IH]; [done|].
    rewrite filter_cons_True by done. by rewrite IH. }
  rewrite filter_app, filter_cons_False by (intros Hne; by apply Hne).
  by rewrite !Hkeep, <- (assoc_L (++)).
Qed.

(** C7. For each id-keyed registry (toolbar buttons, context-menu items,
    status-bar items): registering A, B, C under three distinct ids and then
    an entry B' under B's id leaves the earlier content in its order, without
    the entries of those ids, followed by A, C, B'; from the initial store
    the sequence is exactly [A; C; B'].  In general, registering an entry
    under the id of an entry of the sequence removes that one, keeps the
    others in their order and puts the new entry last. *)
Theorem reregister_moves_entry_to_end
    (r : IdRegistry) (s : PluginStoreState) (A B C B' : entry r) :
  entry_id r A ≠ entry_id r B →
  entry_id r A ≠ entry_id r C →
  entry_id r B ≠ entry_id r C →
  entry_id r B' = entry_id r B →
  let run (s0 : PluginStoreState) :=
    (registerEntry r B'
       (registerEntry r C
          (registerEntry r B (registerEntry r A s0).1).1).1).1 in
  entries r (run s)
  = filter (λ x, entry_id r x ≠ entry_id r A ∧ entry_id r x ≠ entry_id r B
                 ∧ entry_id r x ≠ entry_id r C) (entries r s)
    ++ [A; C; B']
  ∧ entries r (run initialState) = [A; C; B']
  ∧ ∀ (l1 l2 : list (entry r)) (old e : entry r),
      entries r s = l1 ++ old :: l2 →
      entry_id r old = entry_id r e →
      Forall (λ x, entry_id r x ≠ entry_id r e) (l1 ++ l2) →
      entries r (registerEntry r e s).1 = l1 ++ l2 ++ [e].
Proof.
  intros HAB HAC HBC HB' run. subst run.
  destruct r; simpl in *; (split; [|split]);
    solve [ by apply register_sequence
          | by rewrite (register_sequence [] A B C B')
          | intros l1 l2 old e ->; by apply register_replaces ].
Qed.

(** C8. The cleanup function returned by any of the five register operations
    removes the key it was created for, and running it a second time changes
    nothing: on the store the registration produced, and on any store. *)
Theorem cleanup_idempotent (reg : Registration) (s : PluginStoreState) :
  let s1 := (register reg s).1 in
  let dispose := (register reg s).2 in
  key_registered reg s1
  ∧ ¬ key_registered reg (dispose s1)
  ∧ dispose (dispose s1) = dispose s1
  ∧ ∀ s', dispose (dispose s') = dispose s'.
Proof.
  destruct reg; simpl; repeat split.
  - rewrite lookup_insert_eq. eauto.
  - rewrite lookup_delete_eq. by intros [? ?].
  - unfold unregisterPanel, set_pluginPanels. simpl. by rewrite delete_delete_eq.
  - intros s'. unfold unregisterPanel, set_pluginPanels. simpl.
    by rewrite delete_delete_eq.
  - apply register_id_present.
  - apply filter_id_absent.
  - unfold unregisterToolbarButton, set_pluginToolbarButtons. simpl.
    by rewrite filter_id_idemp.
  - intros s'. unfold unregisterToolbarButton, set_pluginToolbarButtons. simpl.
    by rewrite filter_id_idemp.
  - apply register_id_present.
  - apply filter_id_absent.
  - unfold unregisterContextMenuItem, set_pluginContextMenuItems. simpl.
    by rewrite filter_id_idemp.
  - intros s'. unfold unregisterContextMenuItem, set_pluginContextMenuItems. simpl.
    by rewrite filter_id_idemp.
  - apply register_id_present.
  - apply filter_id_absent.
  - unfold unregisterStatusBarItem, set_pluginStatusBarItems. simpl.
    by rewrite filter_id_idemp.
  - intros s'. unfold unregisterStatusBarItem, set_pluginStatusBarItems. simpl.
    by rewrite filter_id_idemp.
  - rewrite lookup_insert_eq. eauto.
  - rewrite lookup_delete_eq. by intros [? ?].
  - unfold unregisterSettingsPage, set_pluginSettingsPages. simpl.
    by rewrite delete_delete_eq.
  - intros s'. unfold unregisterSettingsPage, set_pluginSettingsPages. simpl.
    by rewrite delete_delete_eq.
Qed.

(** ** Invariants and edge cases of the store *)

Lemma NoDup_filter_ids {E} `{!Identified E} (P : E → Prop)
    `{!∀ x, Decision (P x)} (l : list E) :
  NoDup (id_of <$> l) → NoDup (id_of <$> filter P l).
Proof.
  intros Hl. eapply sublist_NoDup; [exact Hl|].
  apply fmap_sublist, sublist_filter.
Qed.

Lemma NoDup_register_ids {E} `{!Identified E} (e : E) (l : list E) :
  NoDup (id_of <$> l) →
  NoDup (id_of <$> (filter (λ x, id_of x ≠ id_of e) l ++ [e])).
Proof.
  intros Hl. rewrite fmap_app. apply NoDup_app. split; [|split].
  - by apply NoDup_filter_ids.
  - intros k Hk Hin. apply list_elem_of_singleton in Hin. subst k.
    by apply filter_id_absent in Hk.
  - apply NoDup_singleton.
Qed.

Lemma NoDup_update_ids (itemId : string) (updates : StatusBarUpdates)
    (items : list StatusBarItem) :
  keepsId updates →
  id_of <$> ((λ item, if decide (id_of item = itemId)
                      then applyUpdates item updates else item) <$> items)
  = id_of <$> items.
Proof.
  intros Hkeep. rewrite <- list_fmap_compose. apply list_fmap_ext.
  intros i item _. simpl. case_decide; [apply Hkeep | done].
Qed.

Lemma uniqueIds_act (a : StoreAction) (s : PluginStoreState) :
  updatesKeepId a → uniqueIds s → uniqueIds (act a s).
Proof.
  intros Hkeep (Htool & Hmenu & Hstatus).
  destruct a as [reg| | | | |itemId updates| |pid v| |]; simpl.
  - destruct reg; simpl; repeat split; simpl;
      auto using NoDup_register_ids.
  - by repeat split.
  - repeat split; simpl; auto using NoDup_filter_ids.
  - repeat split; simpl; auto using NoDup_filter_ids.
  - repeat split; simpl; auto using NoDup_filter_ids.
  - repeat split; simpl; try done. by rewrite NoDup_update_ids.
  - by repeat split.
  - unfold setPanelVisible. destruct (pluginPanels s !! pid); by repeat split.
  - by repeat split.
  - by repeat split.
Qed.

(** X1. Whatever actions of the store are run on the initial store, in
    whatever order (registrations, unregistrations, visibility changes,
    status-bar updates, system updates), as long as no status-bar update
    carries an id of its own: no id-keyed sequence (toolbar buttons,
    context-menu items, status-bar items) ever holds two entries with the
    same id. *)
Theorem ids_stay_unique (actions : list StoreAction) :
  Forall updatesKeepId actions →
  uniqueIds (actAll actions initialState).
Proof.
  intros Hkeep.
  assert (∀ s, uniqueIds s → uniqueIds (actAll actions s)) as Hinv.
  { induction Hkeep as [|a actions Ha _ IH]; intros s Hs; [done|].
    simpl. apply IH. by apply uniqueIds_act. }
  apply Hinv. repeat split; apply NoDup_nil_2.
Qed.

Lemma filter_id_keep {E} `{!Identified E} (k : string) (l : list E) :
  k ∉ id_of <$> l → filter (λ x, id_of x ≠ k) l = l.
Proof.
  induction l as [|x l IH]; intros Hk; [done|].
  rewrite fmap_cons in Hk. apply not_elem_of_cons in Hk as [Hx Hl].
  rewrite filter_cons_True by congruence. by rewrite IH.
Qed.

(** X2. A cleanup function run on a store that does not hold the key it was
    made for (already unregistered, or never registered there) leaves the
    whole store as it is; this holds for the five kinds of registration. *)
Theorem cleanup_of_absent_key_is_noop
    (reg : Registration) (s0 s : PluginStoreState) :
  ¬ key_registered reg s →
  (register reg s0).2 s = s.
Proof.
  intros Habsent. destruct s. destruct reg; simpl in *.
  - unfold unregisterPanel, set_pluginPanels. simpl. f_equal.
    apply delete_id. by apply eq_None_not_Some.
  - unfold unregisterToolbarButton, set_pluginToolbarButtons. simpl. f_equal.
    by apply filter_id_keep.
  - unfold unregisterContextMenuItem, set_pluginContextMenuItems. simpl. f_equal.
    by apply filter_id_keep.
  - unfold unregisterStatusBarItem, set_pluginStatusBarItems. simpl. f_equal.
    by apply filter_id_keep.
  - unfold unregisterSettingsPage, set_pluginSettingsPages. simpl. f_equal.
    apply delete_id. by apply eq_None_not_Some.
Qed.

(** X3. [setPanelVisible] changes nothing but the flag of the panel it
    names: on an id that is not registered the store stays as it is (no
    panel is created); otherwise the panel keeps its owner, id and
    component and gets the new flag, every other panel and every other
    registry is untouched.  A registration always starts hidden, also when
    the id was registered and shown before. *)
Theorem setPanelVisible_changes_only_the_flag
    (pid : string) (v : bool) (s : PluginStoreState) :
  let s' := setPanelVisible pid v s in
  (pluginPanels s !! pid = None → s' = s)
  ∧ pluginPanels s' !! pid = withVisible v <$> pluginPanels s !! pid
  ∧ (∀ other, other ≠ pid → pluginPanels s' !! other = pluginPanels s !! other)
  ∧ pluginToolbarButtons s' = pluginToolbarButtons s
  ∧ pluginContextMenuItems s' = pluginContextMenuItems s
  ∧ pluginStatusBarItems s' = pluginStatusBarItems s
  ∧ pluginSettingsPages s' = pluginSettingsPages s
  ∧ ∀ pluginId component,
      visible <$> pluginPanels (registerPanel pluginId pid component s').1 !! pid
      = Some false.
Proof.
  intros s'. subst s'. unfold setPanelVisible.
  destruct (pluginPanels s !! pid) as [existing|] eqn:Hpanel; simpl.
  - split; [done|]. rewrite lookup_insert_eq. split; [done|].
    split; [intros other Hother; by rewrite lookup_insert_ne|].
    repeat split; try done. intros pluginId component.
    by rewrite lookup_insert_eq.
  - split; [done|]. rewrite Hpanel. split; [done|].
    repeat split; try done. intros pluginId component.
    by rewrite lookup_insert_eq.
Qed.

(** X4. [updateStatusBarItem] never adds, removes or moves an item: the
    sequence keeps its length, an item filed under another id stays at its
    place unchanged, and with no item under the id the whole store is left
    as it is. *)
Theorem updateStatusBarItem_keeps_the_sequence
    (itemId : string) (updates : StatusBarUpdates) (s : PluginStoreState) :
  let s' := updateStatusBarItem itemId updates s in
  length (pluginStatusBarItems s') = length (pluginStatusBarItems s)
  ∧ (∀ i item, pluginStatusBarItems s !! i = Some item →
       id_of item ≠ itemId →
       pluginStatusBarItems s' !! i = Some item)
  ∧ (∀ i item, pluginStatusBarItems s !! i = Some item →
       id_of item = itemId →
       pluginStatusBarItems s' !! i = Some (applyUpdates item updates))
  ∧ (itemId ∉ id_of <$> pluginStatusBarItems s → s' = s).
Proof.
  intros s'. subst s'. unfold updateStatusBarItem. simpl.
  split; [by rewrite length_fmap|].
  split; [|split].
  - intros i item Hi Hne. rewrite list_lookup_fmap, Hi. simpl.
    by rewrite decide_False.
  - intros i item Hi Heq. rewrite list_lookup_fmap, Hi. simpl.
    by rewrite decide_True.
  - intros Habsent. destruct s. unfold set_pluginStatusBarItems. simpl in *.
    f_equal. induction pluginStatusBarItems0 as [|item items IH]; [done|].
    rewrite fmap_cons in Habsent. apply not_elem_of_cons in Habsent as [Hne Hrest].
    rewrite fmap_cons, decide_False by congruence. by rewrite IH.
Qed.

End Store.

Arguments PluginPanelEntry : clear implicits.
Arguments PluginSettingsEntry : clear implicits.
Arguments PluginStoreState : clear implicits.
Arguments Registration : clear implicits.

(** The scenario of C7 on the toolbar: a, b, c, then b again. *)
Lemma reregister_moves_entry_to_end_witness :
  pluginToolbarButtons
    (registerToolbarButton ("b", "second B")
       (registerToolbarButton ("c", "C")
          (registerToolbarButton ("b", "B")
             (registerToolbarButton ("a", "A")
                (initialState
                 : PluginStoreState unit unit
                     LabelledEntry LabelledEntry LabelledEntry)).1).1).1).1
  = [("a", "A"); ("c", "C"); ("b", "second B")].
Proof.
  refine (proj1 (proj2 (reregister_moves_entry_to_end ToolbarButtons
                   (initialState
                    : PluginStoreState unit unit
                        LabelledEntry LabelledEntry LabelledEntry)
                   ("a", "A") ("b", "B") ("c", "C") ("b", "second B") _ _ _ _)));
    vm_compute; congruence.
Defined.

(** Two status-bar items, one of them relabelled, one of them registered
    again: the ids stay apart. *)
Lemma ids_stay_unique_witness :
  let relabel (item : LabelledEntry) (label : string) : LabelledEntry :=
    (item.1, label) in
  uniqueIds
    (actAll relabel
       [DoRegister (RegisterStatusBarItem ("page", "page 3"));
        DoRegister (RegisterStatusBarItem ("words", "120 words"));
        DoUpdateStatusBarItem "page" "page 4";
        DoRegister (RegisterStatusBarItem ("words", "121 words"))]
       (initialState
        : PluginStoreState unit unit LabelledEntry LabelledEntry LabelledEntry)).
Proof.
  intros relabel.
  refine (ids_stay_unique (PanelComponent := unit) (SettingsComponent := unit)
            relabel _ _).
  repeat (apply Forall_cons; split; [by simpl; try intros ?|]).
  apply Forall_nil. done.
Defined.

(** An update that carries an id of its own is outside that: merging
    [{ id: 'words' }] into the item 'page' leaves two items with the id
    'words'. *)
Lemma update_carrying_an_id_duplicates :
  let merge (item updates : LabelledEntry) : LabelledEntry := updates in
  ¬ uniqueIds
      (actAll merge
         [DoRegister (RegisterStatusBarItem ("page", "page 3"));
          DoRegister (RegisterStatusBarItem ("words", "120 words"));
          DoUpdateStatusBarItem "page" ("words", "page 4")]
         (initialState
          : PluginStoreState unit unit LabelledEntry LabelledEntry LabelledEntry)).
Proof.
  intros merge (_ & _ & Hstatus). vm_compute in Hstatus.
  apply NoDup_cons in Hstatus as [Hin _]. apply Hin. apply list_elem_of_here.
Qed.

(** A store with two toolbar buttons, one panel and two status-bar items. *)
Lemma cleanup_of_absent_key_is_noop_witness :
  let s : PluginStoreState unit unit LabelledEntry LabelledEntry LabelledEntry :=
    (registerToolbarButton ("b", "B")
       (registerToolbarButton ("a", "A") initialState).1).1 in
  unregisterToolbarButton "z" s = s.
Proof.
  intros s.
  refine (cleanup_of_absent_key_is_noop (RegisterToolbarButton ("z", "Z"))
            initialState s _).
  vm_compute. intros Hin. repeat (apply elem_of_cons in Hin as [Hin|Hin];
    [discriminate|]). by apply elem_of_nil in Hin.
Defined.

Lemma setPanelVisible_changes_only_the_flag_witness :
  let s : PluginStoreState unit unit LabelledEntry LabelledEntry LabelledEntry :=
    (registerPanel "plugin" "main-panel" tt initialState).1 in
  setPanelVisible "no-such-panel" true s = s.
Proof.
  intros s.
  refine (proj1 (setPanelVisible_changes_only_the_flag "no-such-panel" true s) _).
  vm_compute. reflexivity.
Defined.

Lemma updateStatusBarItem_keeps_the_sequence_witness :
  let s : PluginStoreState unit unit LabelledEntry LabelledEntry LabelledEntry :=
    (registerStatusBarItem ("words", "120 words")
       (registerStatusBarItem ("page", "page 3") initialState).1).1 in
  let relabel (item : LabelledEntry) (label : string) : LabelledEntry :=
    (item.1, label) in
  updateStatusBarItem relabel "no-such-item" "text" s = s.
Proof.
  intros s relabel.
  refine (proj2 (proj2 (proj2
            (updateStatusBarItem_keeps_the_sequence relabel "no-such-item"
               "text" s))) _).
  vm_compute. intros Hin. repeat (apply elem_of_cons in Hin as [Hin|Hin];
    [discriminate|]). by apply elem_of_nil in Hin.
Defined.

End PluginStore.

(* ====================================================================== *)
(** * JavaScript primitives the sources rely on *)
(* ====================================================================== *)

Module JS.

(** [Number.MAX_SAFE_INTEGER].  JavaScript numbers are doubles: up to this
    bound, in absolute value, every integer is a number of its own,
    arithmetic on integers is exact, and a number prints and parses with all
    its digits.  The definitions below compute on [Z]; they are the code's
    on integers within the bound, and say nothing of what the code does
    beyond it. *)
Definition MAX_SAFE_INTEGER : Z := 2 ^ 53 - 1.

(** A number rendered by a template literal.  The numbers rendered here are
    integers within [MAX_SAFE_INTEGER], printed in decimal with a leading
    minus sign when negative. *)
Definition number_to_string (z : Z) : string :=
  NilZero.string_of_int (Z.to_int z).

(** Truthiness of a string: every string but the empty one. *)
Definition truthy (s : string) : bool :=
  match s with
  | EmptyString => false
  | String _ _ => true
  end.

(** The character class [\d]. *)
Definition is_digit (c : ascii) : bool :=
  match c with
  | "0" | "1" | "2" | "3" | "4" | "5" | "6" | "7" | "8" | "9" => true
  | _ => false
  end%char.

(** The longest run of digits a string starts with: what a greedy [\d+]
    consumes from that position (empty when it cannot match). *)
Fixpoint take_digits (s : string) : string :=
  match s with
  | String c rest => if is_digit c then String c (take_digits rest) else EmptyString
  | EmptyString => EmptyString
  end.

(** [parseInt(s, 10)] on a string of decimal digits, as the regular
    expression hands it over; [None] stands for NaN.  The value is the
    code's for digits that spell a number within [MAX_SAFE_INTEGER]. *)
Definition parseInt10 (s : string) : option Z :=
  Z.of_uint <$> NilEmpty.uint_of_string s.

(** [s.split(':')]. *)
Fixpoint split_colon (s : string) : list string :=
  match s with
  | EmptyString => [EmptyString]
  | String c rest =>
      if Ascii.eqb c ":"%char then EmptyString :: split_colon rest
      else match split_colon rest with
           | piece :: pieces => String c piece :: pieces
           | [] => [String c EmptyString]
           end
  end.

(** [s.toLowerCase()] on ASCII letters. *)
Definition lower_char (c : ascii) : ascii :=
  let n := nat_of_ascii c in
  if ((65 <=? n) && (n <=? 90))%nat then ascii_of_nat (n + 32) else c.

Fixpoint toLowerCase (s : string) : string :=
  match s with
  | EmptyString => EmptyString
  | String c rest => String (lower_char c) (toLowerCase rest)
  end.

(** The class [\s], on ASCII: space, tab, line feed, vertical tab, form feed,
    carriage return. *)
Definition is_space (c : ascii) : bool :=
  let n := nat_of_ascii c in
  ((n =? 32) || ((9 <=? n) && (n <=? 13)))%nat.

(** [text.split(/\s+/).filter(Boolean).length]: the number of maximal runs of
    characters that are not white space.  [inWord] tells whether the previous
    character belonged to a run. *)
Fixpoint count_words (inWord : bool) (s : string) : Z :=
  match s with
  | EmptyString => 0
  | String c rest =>
      if is_space c then count_words false rest
      else (if inWord then 0 else 1) + count_words true rest
  end.

(** [s.includes(c)] for a needle of one character. *)
Fixpoint includes_char (c : ascii) (s : string) : bool :=
  match s with
  | EmptyString => false
  | String c' rest => Ascii.eqb c' c || includes_char c rest
  end.

(** [s.startsWith(prefix)]. *)
Fixpoint startsWith (prefix s : string) : bool :=
  match prefix, s with
  | EmptyString, _ => true
  | String a prefix', String b s' => Ascii.eqb b a && startsWith prefix' s'
  | String _ _, EmptyString => false
  end.

(** [s.substring(n)]: what is left of [s] from position [n] on. *)
Fixpoint substring_from (n : nat) (s : string) : string :=
  match n, s with
  | O, _ => s
  | S n', String _ s' => substring_from n' s'
  | S _, EmptyString => EmptyString
  end.

(** [s.endsWith(c)] for a suffix of one character. *)
Fixpoint endsWith_char (c : ascii) (s : string) : bool :=
  match s with
  | EmptyString => false
  | String a rest =>
      match rest with
      | EmptyString => Ascii.eqb a c
      | String _ _ => endsWith_char c rest
      end
  end.

Lemma take_digits_uint (d : Decimal.uint) (tail : string) :
  take_digits tail = EmptyString →
  take_digits (NilEmpty.string_of_uint d +:+ tail) = NilEmpty.string_of_uint d.
Proof.
  intros Htail. induction d; simpl; rewrite ?IHd; auto.
Qed.

Lemma string_of_uint_nonempty (d : Decimal.uint) :
  d ≠ Decimal.Nil → NilEmpty.string_of_uint d ≠ EmptyString.
Proof. destruct d; simpl; congruence. Qed.

(** Printing a positive integer and reading it back. *)
Lemma number_to_string_pos (p : positive) :
  number_to_string (Z.pos p) = NilEmpty.string_of_uint (Pos.to_uint p).
Proof.
  unfold number_to_string. simpl. unfold NilZero.string_of_uint.
  pose proof (DecimalPos.Unsigned.to_uint_nonnil p) as Hnn.
  destruct (Pos.to_uint p); congruence.
Qed.

Lemma parseInt10_number_to_string (p : positive) :
  parseInt10 (number_to_string (Z.pos p)) = Some (Z.pos p).
Proof.
  rewrite number_to_string_pos. unfold parseInt10.
  rewrite NilEmpty.usu. simpl. unfold Z.of_uint.
  by rewrite DecimalPos.Unsigned.of_to.
Qed.

(** Printing zero and negative integers. *)
Lemma number_to_string_neg (p : positive) :
  number_to_string (Z.neg p)
  = String "-" (NilEmpty.string_of_uint (Pos.to_uint p)).
Proof.
  unfold number_to_string. simpl. unfold NilZero.string_of_uint.
  pose proof (DecimalPos.Unsigned.to_uint_nonnil p) as Hnn.
  destruct (Pos.to_uint p); congruence.
Qed.

(** A number that is not negative prints as a non-empty run of digits that
    reads back as the number. *)
Lemma number_to_string_nonneg (z : Z) :
  0 ≤ z →
  ∃ d, d ≠ Decimal.Nil
       ∧ number_to_string z = NilEmpty.string_of_uint d
       ∧ parseInt10 (number_to_string z) = Some z.
Proof.
  intros Hz. destruct z as [|p|p]; [| |lia].
  - exists (Decimal.D0 Decimal.Nil). by repeat split.
  - exists (Pos.to_uint p). split; [apply DecimalPos.Unsigned.to_uint_nonnil|].
    split; [apply number_to_string_pos | apply parseInt10_number_to_string].
Qed.

Lemma take_digits_uint_app (d : Decimal.uint) (tail : string) :
  take_digits (NilEmpty.string_of_uint d +:+ tail)
  = NilEmpty.string_of_uint d +:+ take_digits tail.
Proof. induction d; simpl; rewrite ?IHd; auto. Qed.

Lemma includes_char_app (c : ascii) (a b : string) :
  includes_char c (a +:+ b) = includes_char c a || includes_char c b.
Proof.
  induction a as [|c' a IH]; [done|].
  change (String c' a +:+ b) with (String c' (a +:+ b)). simpl.
  by rewrite IH, orb_assoc.
Qed.

Lemma includes_char_uint (c : ascii) (d : Decimal.uint) :
  is_digit c = false → includes_char c (NilEmpty.string_of_uint d) = false.
Proof.
  intros Hc.
  induction d; cbn [NilEmpty.string_of_uint includes_char]; rewrite ?IHd;
    try done;
    rewrite orb_false_r; apply Ascii.eqb_neq; intros <-; done.
Qed.

(** Splitting at colons: a text without a colon is one piece, and a colon
    after such a text starts the next piece. *)
Lemma split_colon_plain (s : string) :
  includes_char ":" s = false → split_colon s = [s].
Proof.
  induction s as [|c s IH]; [done|]. simpl. intros Hs.
  apply orb_false_iff in Hs as [Hc Hs]. rewrite Hc, IH; done.
Qed.

Lemma split_colon_app (s t : string) :
  includes_char ":" s = false →
  split_colon (s +:+ ":" +:+ t) = s :: split_colon t.
Proof.
  induction s as [|c s IH]; [done|]. intros Hs. simpl in Hs.
  apply orb_false_iff in Hs as [Hc Hs].
  change (String c s +:+ ":" +:+ t) with (String c (s +:+ ":" +:+ t)).
  simpl. rewrite Hc, IH; done.
Qed.

(** Prefixes and what follows them. *)
Lemma append_assoc (a b c : string) : (a +:+ b) +:+ c = a +:+ b +:+ c.
Proof.
  induction a as [|x a IH]; [done|].
  change (String x (a +:+ b) +:+ c = String x (a +:+ b +:+ c)).
  change (String x ((a +:+ b) +:+ c) = String x (a +:+ b +:+ c)).
  by rewrite IH.
Qed.

Lemma startsWith_app (prefix rest : string) :
  startsWith prefix (prefix +:+ rest) = true.
Proof.
  induction prefix as [|a prefix IH]; [done|].
  change (String a prefix +:+ rest) with (String a (prefix +:+ rest)).
  cbn [startsWith]. by rewrite Ascii.eqb_refl, IH.
Qed.

Lemma substring_from_app (prefix rest : string) :
  substring_from (String.length prefix) (prefix +:+ rest) = rest.
Proof.
  induction prefix as [|a prefix IH]; [done|].
  change (String a prefix +:+ rest) with (String a (prefix +:+ rest)).
  cbn [substring_from String.length]. exact IH.
Qed.

Lemma startsWith_true (prefix s : string) :
  startsWith prefix s = true →
  s = prefix +:+ substring_from (String.length prefix) s.
Proof.
  revert s. induction prefix as [|a prefix IH]; intros s Hs; [done|].
  destruct s as [|b s]; [done|]. cbn [startsWith] in Hs.
  apply andb_true_iff in Hs as [Hab Hs]. apply Ascii.eqb_eq in Hab as ->.
  change (String a prefix +:+ ?r) with (String a (prefix +:+ r)).
  cbn [substring_from String.length]. f_equal. by apply IH.
Qed.

Lemma endsWith_char_app (c : ascii) (s : string) :
  endsWith_char c (s +:+ String c EmptyString) = true.
Proof.
  induction s as [|a s IH]; [cbn; apply Ascii.eqb_refl|].
  change (String a s +:+ String c EmptyString)
    with (String a (s +:+ String c EmptyString)).
  cbn [endsWith_char].
  destruct (s +:+ String c EmptyString) eqn:Hs; [by destruct s|exact IH].
Qed.

End JS.

(* ====================================================================== *)
(** * services/plugins/typeMappers.ts *)
(* ====================================================================== *)

Module TypeMappers.

(** [BookNoteType] of the host and [Annotation['type']] of the SDK. *)
Inductive BookNoteType := bookmark | annotation | excerpt.
Inductive SDKAnnotationType := footnote | highlight | comment | sidebar.

#[export] Instance BookNoteType_eq_dec : EqDecision BookNoteType.
Proof. solve_decision. Defined.

#[export] Instance SDKAnnotationType_eq_dec : EqDecision SDKAnnotationType.
Proof. solve_decision. Defined.

(** The string a [BookNoteType] is at run time. *)
Definition noteTypeName (t : BookNoteType) : string :=
  match t with
  | bookmark => "bookmark"
  | annotation => "annotation"
  | excerpt => "excerpt"
  end.

(** Free-form metadata, [Record<string, unknown>]: the entries are kept at
    the type the code reads them at (strings); an entry whose value is
    undefined is an absent key. *)
Abbreviation Metadata := (gmap string string).

(** The host's [BookNote] (types/book): the fields the mappers touch. *)
Module BookNote.
Record t := {
  id : string;
  bookHash : option string;
  type : BookNoteType;
  cfi : string;
  text : option string;
  note : string;
  style : option string;
  color : option string;
  createdAt : Z;
  updatedAt : Z;
  deletedAt : option Z;
}.
End BookNote.

(** The SDK's [Annotation]. *)
Module SDKAnnotation.
Record t := {
  id : string;
  pluginId : string;
  chapterIndex : Z;
  startOffset : Z;
  endOffset : Z;
  type : SDKAnnotationType;
  content : string;
  style : option string;
  metadata : Metadata;
  createdAt : string;
  updatedAt : string;
}.
End SDKAnnotation.

(** The SDK's [NewAnnotation]: the fields the mappers read. *)
Module SDKNewAnnotation.
Record t := {
  chapterIndex : Z;
  type : SDKAnnotationType;
  content : string;
  style : option string;
  metadata : option Metadata;
}.
End SDKNewAnnotation.

(** ** Annotation type mapping

    The [default] arms of the two switches answer values outside the declared
    unions; the inductive types have none. *)

Definition mapReadestNoteTypeToSDK (readestType : BookNoteType) : SDKAnnotationType :=
  match readestType with
  | bookmark => sidebar
  | annotation => highlight
  | excerpt => comment
  end.

Definition mapSDKTypeToReadestNoteType (sdkType : SDKAnnotationType) : BookNoteType :=
  match sdkType with
  | sidebar => bookmark
  | highlight | footnote => annotation
  | comment => excerpt
  end.

(** ** CFI / section index helpers *)

(** Capture group 1 of the leftmost match of [/\/6\/(\d+)/], if there is one. *)
Fixpoint match_section_step (s : string) : option string :=
  match s with
  | EmptyString => None
  | String _ rest =>
      let here :=
        match s with
        | String "/" (String "6" (String "/" after)) =>
            let digits := JS.take_digits after in
            if JS.truthy digits then Some digits else None
        | _ => None
        end%char in
      match here with
      | Some digits => Some digits
      | None => match_section_step rest
      end
  end.

(** [Math.max(0, Math.floor(step / 2) - 1)].  The captured text is a run of
    digits, so [parseInt] always yields a number; the arithmetic is the
    code's for a step within [JS.MAX_SAFE_INTEGER]. *)
Definition extractSectionIndexFromCFI (cfi : string) : Z :=
  if negb (JS.truthy cfi) then 0
  else match match_section_step cfi with
       | Some digits =>
           if JS.truthy digits then
             match JS.parseInt10 digits with
             | Some step => Z.max 0 (step / 2 - 1)
             | None => 0
             end
           else 0
       | None => 0
       end.

(** ** Annotation / BookNote mapping *)

Definition truthy_opt (o : option string) : bool :=
  match o with
  | Some s => JS.truthy s
  | None => false
  end.

Section Mapping.
(** [new Date(ms).toISOString()]. *)
Variable toISOString : Z → string.

Definition mapBookNoteToSDKAnnotation (note : BookNote.t) (pluginId : string)
    : SDKAnnotation.t :=
  let chapterIndex := extractSectionIndexFromCFI (BookNote.cfi note) in
  {| SDKAnnotation.id := BookNote.id note;
     SDKAnnotation.pluginId := pluginId;
     SDKAnnotation.chapterIndex := chapterIndex;
     SDKAnnotation.startOffset := 0;
     SDKAnnotation.endOffset := 0;
     SDKAnnotation.type := mapReadestNoteTypeToSDK (BookNote.type note);
     SDKAnnotation.content := default (BookNote.note note) (BookNote.text note);
     SDKAnnotation.style :=
       match BookNote.style note, BookNote.color note with
       | Some s, Some c =>
           if JS.truthy s && JS.truthy c then Some (s +:+ ":" +:+ c) else Some s
       | Some s, None => Some s
       | None, c => c
       end;
     SDKAnnotation.metadata :=
       let base : Metadata :=
         <["cfi" := BookNote.cfi note]>
           (<["readestNoteType" := noteTypeName (BookNote.type note)]> ∅) in
       match BookNote.bookHash note with
       | Some h => <["bookHash" := h]> base
       | None => base
       end;
     SDKAnnotation.createdAt := toISOString (BookNote.createdAt note);
     SDKAnnotation.updatedAt := toISOString (BookNote.updatedAt note) |}.

End Mapping.

(** The CFI synthesized from a chapter index; the arithmetic and the digits
    are the code's as long as [(chapterIndex + 1) * 2] stays within
    [JS.MAX_SAFE_INTEGER]. *)
Definition synthesizedCFI (chapterIndex : Z) : string :=
  "epubcfi(/6/" +:+ JS.number_to_string ((chapterIndex + 1) * 2) +:+ "!)".

(** [now] is the reading of [Date.now()] and [suffix] the text of
    [Math.random().toString(36).substring(2, 8)]. *)
Definition mapSDKAnnotationToBookNote (annotation : SDKNewAnnotation.t)
    (bookHash : option string) (cfi : option string)
    (now : Z) (suffix : string) : BookNote.t :=
  let noteType := mapSDKTypeToReadestNoteType (SDKNewAnnotation.type annotation) in
  let id := "plugin-" +:+ JS.number_to_string now +:+ "-" +:+ suffix in
  let styleAndColor : option string * option string :=
    match SDKNewAnnotation.style annotation with
    | Some st =>
        if JS.truthy st then
          match JS.split_colon st with
          | [part0; part1] => (Some part0, Some part1)
          | _ => (Some "highlight", Some st)
          end
        else (None, None)
    | None => (None, None)
    end in
  let resolvedCFI :=
    match cfi with
    | Some c => c
    | None =>
        match SDKNewAnnotation.metadata annotation ≫= (λ m, m !! "cfi") with
        | Some c => c
        | None => synthesizedCFI (SDKNewAnnotation.chapterIndex annotation)
        end
    end in
  {| BookNote.id := id;
     BookNote.bookHash := bookHash;
     BookNote.type := noteType;
     BookNote.cfi := resolvedCFI;
     BookNote.text := Some (SDKNewAnnotation.content annotation);
     BookNote.note := "";
     BookNote.style := styleAndColor.1;
     BookNote.color := styleAndColor.2;
     BookNote.createdAt := now;
     BookNote.updatedAt := now;
     BookNote.deletedAt := None |}.

(** ** Facts about the mappers *)

Lemma note_type_round_trip (t : BookNoteType) :
  mapSDKTypeToReadestNoteType (mapReadestNoteTypeToSDK t) = t.
Proof. by destruct t. Qed.

Lemma match_section_step_synthesized (d : Decimal.uint) :
  d ≠ Decimal.Nil →
  match_section_step ("epubcfi(/6/" +:+ NilEmpty.string_of_uint d +:+ "!)")
  = Some (NilEmpty.string_of_uint d).
Proof.
  intros Hd.
  change ("epubcfi(/6/" +:+ NilEmpty.string_of_uint d +:+ "!)")
    with (String "e" (String "p" (String "u" (String "b" (String "c"
           (String "f" (String "i" (String "("
             (String "/" (String "6" (String "/"
                (NilEmpty.string_of_uint d +:+ "!)"))))))))))))%char.
  cbn - [JS.take_digits JS.truthy String.append].
  rewrite JS.take_digits_uint by reflexivity.
  pose proof (JS.string_of_uint_nonempty d Hd) as Hne.
  destruct (NilEmpty.string_of_uint d); [congruence | reflexivity].
Qed.

(** The section index read back from a synthesized CFI. *)
Lemma extract_synthesized (n : Z) :
  0 ≤ n → extractSectionIndexFromCFI (synthesizedCFI n) = n.
Proof.
  intros Hn. unfold synthesizedCFI.
  destruct ((n + 1) * 2) as [|p|p] eqn:Hstep; try lia.
  rewrite JS.number_to_string_pos.
  unfold extractSectionIndexFromCFI.
  rewrite match_section_step_synthesized
    by apply DecimalPos.Unsigned.to_uint_nonnil.
  rewrite <- JS.number_to_string_pos, JS.parseInt10_number_to_string.
  assert (JS.truthy (JS.number_to_string (Z.pos p)) = true) as ->.
  { rewrite JS.number_to_string_pos.
    pose proof (JS.string_of_uint_nonempty _
                  (DecimalPos.Unsigned.to_uint_nonnil p)) as Hne.
    destruct (NilEmpty.string_of_uint (Pos.to_uint p)); [congruence | reflexivity]. }
  simpl. rewrite <- Hstep. rewrite Z.div_mul by lia. lia.
Qed.

(** ** Where the regular expression matches *)

(** A position that does not start with "/6/" is passed over. *)
Lemma match_section_step_skip (c : ascii) (rest : string) :
  c ≠ "/"%char → match_section_step (String c rest) = match_section_step rest.
Proof.
  intros Hc. destruct c as [[] [] [] [] [] [] [] []]; try reflexivity.
  by destruct Hc.
Qed.

Lemma match_section_step_skip_second (c : ascii) (rest : string) :
  c ≠ "6"%char →
  match_section_step (String "/" (String c rest))
  = match_section_step (String c rest).
Proof.
  intros Hc. destruct c as [[] [] [] [] [] [] [] []]; try reflexivity.
  by destruct Hc.
Qed.

Lemma match_section_step_skip_third (c : ascii) (rest : string) :
  c ≠ "/"%char →
  match_section_step (String "/" (String "6" (String c rest)))
  = match_section_step (String "6" (String c rest)).
Proof.
  intros Hc. destruct c as [[] [] [] [] [] [] [] []]; try reflexivity.
  by destruct Hc.
Qed.

Lemma match_section_step_no_slash (s : string) :
  JS.includes_char "/" s = false → match_section_step s = None.
Proof.
  induction s as [|c s IH]; [done|]. intros Hs.
  cbn [JS.includes_char] in Hs. apply orb_false_iff in Hs as [Hc Hs].
  rewrite match_section_step_skip by by apply Ascii.eqb_neq.
  by apply IH.
Qed.

(** A match needs the text "/6/" somewhere. *)
Lemma match_section_step_Some (s digits : string) :
  match_section_step s = Some digits → ∃ a b, s = a +:+ "/6/" +:+ b.
Proof.
  induction s as [|c1 s IH]; [done|]. intros Hmatch.
  assert (match_section_step s = Some digits → ∃ a b, String c1 s = a +:+ "/6/" +:+ b)
    as Hlater.
  { intros (a & b & ->)%IH. by exists (String c1 a), b. }
  destruct (decide (c1 = "/"%char)) as [->|Hc1];
    [|rewrite match_section_step_skip in Hmatch by done; auto].
  destruct s as [|c2 s]; [done|].
  destruct (decide (c2 = "6"%char)) as [->|Hc2];
    [|rewrite match_section_step_skip_second in Hmatch by done; auto].
  destruct s as [|c3 s]; [done|].
  destruct (decide (c3 = "/"%char)) as [->|Hc3];
    [|rewrite match_section_step_skip_third in Hmatch by done; auto].
  by exists "", s.
Qed.

(** The match in a text that reaches its first slash at "/6/" followed by a
    number. *)
Lemma match_section_step_at_first_slash (pre tail : string) (d : Decimal.uint) :
  JS.includes_char "/" pre = false →
  d ≠ Decimal.Nil →
  match_section_step (pre +:+ "/6/" +:+ NilEmpty.string_of_uint d +:+ tail)
  = Some (NilEmpty.string_of_uint d +:+ JS.take_digits tail).
Proof.
  intros Hpre Hd. induction pre as [|c pre IH].
  - change ("" +:+ "/6/" +:+ NilEmpty.string_of_uint d +:+ tail)
      with (String "/" (String "6" (String "/"
              (NilEmpty.string_of_uint d +:+ tail))))%char.
    cbn - [JS.take_digits JS.truthy String.append].
    rewrite JS.take_digits_uint_app.
    pose proof (JS.string_of_uint_nonempty d Hd) as Hne.
    destruct (NilEmpty.string_of_uint d); [congruence | reflexivity].
  - cbn [JS.includes_char] in Hpre. apply orb_false_iff in Hpre as [Hc Hpre].
    change (String c pre +:+ "/6/" +:+ NilEmpty.string_of_uint d +:+ tail)
      with (String c (pre +:+ "/6/" +:+ NilEmpty.string_of_uint d +:+ tail)).
    rewrite match_section_step_skip by by apply Ascii.eqb_neq.
    by apply IH.
Qed.

(** X5. The section index of a locator: when the first slash of the text is
    at "/6/" and that is followed by the decimal step, a number from 0 to
    [Number.MAX_SAFE_INTEGER], and then by something that is not a digit (as
    in epubcfi(/6/8!/4/2:0)), the index is floor(step / 2) - 1, and 0 when
    that would be negative; an odd step is rounded down. *)
Theorem section_index_of_a_cfi (pre tail : string) (step : Z) :
  JS.includes_char "/" pre = false →
  0 ≤ step ≤ JS.MAX_SAFE_INTEGER →
  JS.take_digits tail = "" →
  extractSectionIndexFromCFI
    (pre +:+ "/6/" +:+ JS.number_to_string step +:+ tail)
  = Z.max 0 (step / 2 - 1).
Proof.
  intros Hpre [Hstep _] Htail.
  destruct (JS.number_to_string_nonneg step Hstep) as (d & Hd & Hprint & Hparse).
  unfold extractSectionIndexFromCFI.
  assert (JS.truthy (pre +:+ "/6/" +:+ JS.number_to_string step +:+ tail) = true)
    as ->.
  { by destruct pre. }
  rewrite Hprint, match_section_step_at_first_slash, Htail by done.
  replace (NilEmpty.string_of_uint d +:+ "") with (NilEmpty.string_of_uint d)
    by (clear; induction (NilEmpty.string_of_uint d) as [|c s IH]; [done|];
        change (String c s +:+ "") with (String c (s +:+ "")); by rewrite <- IH).
  rewrite <- Hprint, Hparse. simpl.
  pose proof (JS.string_of_uint_nonempty d Hd) as Hne. rewrite <- Hprint in Hne.
  by destruct (JS.number_to_string step).
Qed.

(** X6. The section index is never negative, and it is 0 for every text
    in which "/6/" does not occur, the empty text included. *)
Theorem section_index_defaults_to_zero (cfi : string) :
  0 ≤ extractSectionIndexFromCFI cfi
  ∧ ((∀ a b, cfi ≠ a +:+ "/6/" +:+ b) → extractSectionIndexFromCFI cfi = 0).
Proof.
  unfold extractSectionIndexFromCFI. split.
  - destruct (JS.truthy cfi); simpl; [|done].
    destruct (match_section_step cfi) as [digits|]; [|done].
    destruct (JS.truthy digits); [|done].
    destruct (JS.parseInt10 digits); [lia | done].
  - intros Habsent. destruct (JS.truthy cfi); simpl; [|done].
    destruct (match_section_step cfi) as [digits|] eqn:Hmatch; [|done].
    apply match_section_step_Some in Hmatch as (a & b & ->).
    by destruct (Habsent a b).
Qed.

(** A negative chapter index gives a CFI that reads back as section 0. *)
Lemma extract_synthesized_negative (n : Z) :
  n < 0 → extractSectionIndexFromCFI (synthesizedCFI n) = 0.
Proof.
  intros Hn. unfold synthesizedCFI.
  destruct ((n + 1) * 2) as [|p|p] eqn:Hstep; [|lia|].
  - reflexivity.
  - rewrite JS.number_to_string_neg. unfold extractSectionIndexFromCFI.
    change ("epubcfi(/6/" +:+ String "-" (NilEmpty.string_of_uint (Pos.to_uint p))
            +:+ "!)")
      with (String "e" (String "p" (String "u" (String "b" (String "c"
             (String "f" (String "i" (String "("
               (String "/" (String "6" (String "/" (String "-"
                  (NilEmpty.string_of_uint (Pos.to_uint p) +:+ "!)")))))))))))))%char.
    cbn - [String.append].
    rewrite match_section_step_no_slash; [done|].
    rewrite JS.includes_char_app, JS.includes_char_uint by done. done.
Qed.

(** A locator as the reader produces them, and one without a spine step. *)
Lemma section_index_of_a_cfi_witness :
  extractSectionIndexFromCFI "epubcfi(/6/9!/4/2/1:0)" = 3.
Proof.
  refine (section_index_of_a_cfi "epubcfi(" "!/4/2/1:0)" 9 _ _ _);
    [reflexivity | by vm_compute | reflexivity].
Defined.

Lemma section_index_defaults_to_zero_witness :
  0 ≤ extractSectionIndexFromCFI "epubcfi(/6/14!/4)"
  ∧ extractSectionIndexFromCFI "" = 0.
Proof.
  split.
  - exact (proj1 (section_index_defaults_to_zero "epubcfi(/6/14!/4)")).
  - refine (proj2 (section_index_defaults_to_zero "") _).
    intros a b Habs. by destruct a.
Defined.

(** ** An annotation through the note and back *)

(** X7. What comes back of a new annotation once it has been turned into a
    note and the note into an annotation: the content is kept; a style made
    of a style name and a colour joined by one colon is kept; a style
    without a colon comes back with "highlight:" put in front of it; no
    style, or an empty one, comes back as no style. *)
Theorem style_through_the_note (toISOString : Z → string)
    (annotation : SDKNewAnnotation.t) (bookHash cfi : option string)
    (now : Z) (suffix pluginId : string) :
  let back :=
    mapBookNoteToSDKAnnotation toISOString
      (mapSDKAnnotationToBookNote annotation bookHash cfi now suffix) pluginId in
  SDKAnnotation.content back = SDKNewAnnotation.content annotation
  ∧ (∀ name colour,
       JS.truthy name = true → JS.truthy colour = true →
       JS.includes_char ":" name = false → JS.includes_char ":" colour = false →
       SDKNewAnnotation.style annotation = Some (name +:+ ":" +:+ colour) →
       SDKAnnotation.style back = Some (name +:+ ":" +:+ colour))
  ∧ (∀ plain,
       JS.truthy plain = true → JS.includes_char ":" plain = false →
       SDKNewAnnotation.style annotation = Some plain →
       SDKAnnotation.style back = Some ("highlight:" +:+ plain))
  ∧ (SDKNewAnnotation.style annotation = None
     ∨ SDKNewAnnotation.style annotation = Some "" →
     SDKAnnotation.style back = None).
Proof.
  intros back. subst back.
  unfold mapBookNoteToSDKAnnotation, mapSDKAnnotationToBookNote. simpl.
  split; [done|]. split; [|split].
  - intros name colour Hname Hcolour Hn Hc ->.
    assert (JS.truthy (name +:+ ":" +:+ colour) = true) as -> by by destruct name.
    rewrite JS.split_colon_app, JS.split_colon_plain by done. simpl.
    by rewrite Hname, Hcolour.
  - intros plain Hplain Hp ->. rewrite Hplain, JS.split_colon_plain by done.
    simpl. by rewrite Hplain.
  - by intros [-> | ->].
Qed.

Lemma style_through_the_note_witness :
  SDKAnnotation.style
    (mapBookNoteToSDKAnnotation JS.number_to_string
       (mapSDKAnnotationToBookNote
          {| SDKNewAnnotation.chapterIndex := 2;
             SDKNewAnnotation.type := comment;
             SDKNewAnnotation.content := "a remark";
             SDKNewAnnotation.style := Some "yellow";
             SDKNewAnnotation.metadata := None |}
          None None 1700000000123 "k3x9qa") "readest")
  = Some "highlight:yellow".
Proof.
  refine (proj1 (proj2 (proj2
            (style_through_the_note JS.number_to_string
               {| SDKNewAnnotation.chapterIndex := 2;
                  SDKNewAnnotation.type := comment;
                  SDKNewAnnotation.content := "a remark";
                  SDKNewAnnotation.style := Some "yellow";
                  SDKNewAnnotation.metadata := None |}
               None None 1700000000123 "k3x9qa" "readest"))) "yellow" _ _ _);
    reflexivity.
Defined.

End TypeMappers.

(* ====================================================================== *)
(** * services/plugins/providers/ReadestAnnotationDataProvider.ts *)
(* ====================================================================== *)

Module AnnotationData.
Import TypeMappers.

(** The host's [BookConfig]: the provider reads and writes [booknotes] only. *)
Record BookConfig := {
  booknotes : option (list BookNote.t);
}.

(** Modelled from the spec: the host's live view ([FoliateView], types/view)
    is not part of these sources.  Rendering is best effort: [addAnnotation]
    either records the request or throws.  What a view that throws has drawn
    by then these sources do not say; the model keeps such a view as it was,
    and no statement below rests on that. *)
Record FoliateView := {
  rendered : list (BookNote.t * bool);
  rendering_fails : bool;
}.

Definition addAnnotation (view : FoliateView) (note : BookNote.t) (remove : bool)
    : option FoliateView :=
  if rendering_fails view then None
  else Some {| rendered := rendered view ++ [(note, remove)];
               rendering_fails := rendering_fails view |}.

(** Modelled from the spec: the host's book-data and reader stores
    (store/bookDataStore, store/readerStore) are not part of these sources.
    The host keeps, per book key, the persisted config, the book hash and
    the live view, and a log of the configs handed to [saveConfig]. *)
Record Host := {
  configs : gmap string BookConfig;
  bookHashes : gmap string string;
  views : gmap string FoliateView;
  savedConfigs : list (string * BookConfig);
}.

Definition set_configs (f : gmap string BookConfig → gmap string BookConfig)
    (host : Host) : Host :=
  {| configs := f (configs host); bookHashes := bookHashes host;
     views := views host; savedConfigs := savedConfigs host |}.

Definition set_views (f : gmap string FoliateView → gmap string FoliateView)
    (host : Host) : Host :=
  {| configs := configs host; bookHashes := bookHashes host;
     views := f (views host); savedConfigs := savedConfigs host |}.

Definition set_savedConfigs
    (f : list (string * BookConfig) → list (string * BookConfig))
    (host : Host) : Host :=
  {| configs := configs host; bookHashes := bookHashes host;
     views := views host; savedConfigs := f (savedConfigs host) |}.

(** ** [ReadestAnnotationStoreAccessors] *)

(** Get the BookConfig (including booknotes) for a book key. *)
Definition getConfig (key : string) (host : Host) : option BookConfig :=
  configs host !! key.

(** Modelled from the spec: [updateBooknotes] of the book-data store, which
    is not part of these sources.  It replaces the booknotes of the book's
    config and returns the updated config; there is nothing to update, and
    nothing is returned, when the store holds no config for the key. *)
Definition updateBooknotes (key : string) (notes : list BookNote.t) (host : Host)
    : Host * option BookConfig :=
  match configs host !! key with
  | Some _ =>
      let updated := {| booknotes := Some notes |} in
      (set_configs (λ cs, <[key := updated]> cs) host, Some updated)
  | None => (host, None)
  end.

(** Save the config to disk. *)
Definition saveConfig (bookKey : string) (config : BookConfig) (host : Host) : Host :=
  set_savedConfigs (λ log, log ++ [(bookKey, config)]) host.

(** Get the FoliateView for rendering annotations in the view. *)
Definition getView (key : string) (host : Host) : option FoliateView :=
  views host !! key.

(** Get the book hash for the given book key. *)
Definition getBookHash (key : string) (host : Host) : option string :=
  bookHashes host !! key.

(** ** The provider *)

Record ReadestAnnotationDataProvider := {
  _bookKey : string;
  _pluginId : string;
}.

(** [!note.deletedAt]: no stamp, or the stamp 0. *)
Definition notDeleted (note : BookNote.t) : Prop :=
  match BookNote.deletedAt note with
  | None => True
  | Some stamp => stamp = 0
  end.

#[export] Instance notDeleted_dec (note : BookNote.t) : Decision (notDeleted note).
Proof. unfold notDeleted. destruct (BookNote.deletedAt note); apply _. Defined.

(** The notes stored for the provider's book: [config?.booknotes ?? []]. *)
Definition storedNotes (self : ReadestAnnotationDataProvider) (host : Host)
    : list BookNote.t :=
  default [] (getConfig (_bookKey self) host ≫= booknotes).

(** The SDK's [AnnotationLayer]: the provider reads and sets [id],
    [pluginId] and [visible] and copies whatever else a layer carries. *)
Module SDKAnnotationLayer.
Record t (Details : Type) := {
  id : option string;
  pluginId : string;
  visible : bool;
  details : Details;
}.
Arguments id {Details} _.
Arguments pluginId {Details} _.
Arguments visible {Details} _.
Arguments details {Details} _.
End SDKAnnotationLayer.

(** The layer directory [_layers] of a provider instance, and the four layer
    operations on it; [now] and [suffix] make the id of a layer that comes
    without one. *)
Definition createLayer {Details : Type} (self : ReadestAnnotationDataProvider)
    (layer : SDKAnnotationLayer.t Details) (now : Z) (suffix : string)
    (_layers : gmap string (SDKAnnotationLayer.t Details))
    : gmap string (SDKAnnotationLayer.t Details) * string :=
  let id :=
    default ("layer-" +:+ JS.number_to_string now +:+ "-" +:+ suffix)
      (SDKAnnotationLayer.id layer) in
  let newLayer :=
    {| SDKAnnotationLayer.id := Some id;
       SDKAnnotationLayer.pluginId := _pluginId self;
       SDKAnnotationLayer.visible := SDKAnnotationLayer.visible layer;
       SDKAnnotationLayer.details := SDKAnnotationLayer.details layer |} in
  (<[id := newLayer]> _layers, id).

Definition getLayer {Details : Type} (layerId : string)
    (_layers : gmap string (SDKAnnotationLayer.t Details))
    : option (SDKAnnotationLayer.t Details) :=
  _layers !! layerId.

Definition setLayerVisible {Details : Type} (layerId : string) (v : bool)
    (_layers : gmap string (SDKAnnotationLayer.t Details))
    : gmap string (SDKAnnotationLayer.t Details) :=
  match _layers !! layerId with
  | Some layer =>
      <[layerId := {| SDKAnnotationLayer.id := SDKAnnotationLayer.id layer;
                      SDKAnnotationLayer.pluginId := SDKAnnotationLayer.pluginId layer;
                      SDKAnnotationLayer.visible := v;
                      SDKAnnotationLayer.details := SDKAnnotationLayer.details layer |}]>
        _layers
  | None => _layers
  end.

Definition deleteLayer {Details : Type} (layerId : string)
    (_layers : gmap string (SDKAnnotationLayer.t Details))
    : gmap string (SDKAnnotationLayer.t Details) :=
  delete layerId _layers.

Section Provider.
Variable toISOString : Z → string.

Definition getAnnotations (self : ReadestAnnotationDataProvider)
    (chapterIndex : option Z) (host : Host) : list SDKAnnotation.t :=
  match getConfig (_bookKey self) host ≫= booknotes with
  | None => []
  | Some notes =>
      let activeNotes := filter notDeleted notes in
      let annotations :=
        (λ note, mapBookNoteToSDKAnnotation toISOString note (_pluginId self))
          <$> activeNotes in
      match chapterIndex with
      | Some index => filter (λ a, SDKAnnotation.chapterIndex a = index) annotations
      | None => annotations
      end
  end.

(** [now] and [suffix] are the clock reading and the random text the new
    note's id is made of. *)
Definition createAnnotation (self : ReadestAnnotationDataProvider)
    (annotation : SDKNewAnnotation.t) (now : Z) (suffix : string) (host : Host)
    : Host * SDKAnnotation.t :=
  let bookHash := getBookHash (_bookKey self) host in
  let newNote := mapSDKAnnotationToBookNote annotation bookHash None now suffix in
  let config := getConfig (_bookKey self) host in
  let existingNotes := default [] (config ≫= booknotes) in
  let updatedNotes := existingNotes ++ [newNote] in
  let '(host1, updatedConfig) := updateBooknotes (_bookKey self) updatedNotes host in
  let host2 :=
    match getView (_bookKey self) host1 with
    | Some view =>
        match addAnnotation view newNote false with
        | Some view' => set_views (λ vs, <[_bookKey self := view']> vs) host1
        | None => host1
        end
    | None => host1
    end in
  let host3 :=
    match updatedConfig with
    | Some c => saveConfig (_bookKey self) c host2
    | None => host2
    end in
  (host3, mapBookNoteToSDKAnnotation toISOString newNote (_pluginId self)).

(** [deletedAtNow] and [updatedAtNow] are the two readings of [Date.now()]. *)
Definition deleteAnnotation (self : ReadestAnnotationDataProvider)
    (annotationId : string) (deletedAtNow updatedAtNow : Z) (host : Host) : Host :=
  match getConfig (_bookKey self) host ≫= booknotes with
  | None => host
  | Some notes =>
      match list_find (λ n, BookNote.id n = annotationId) notes with
      | None => host
      | Some (noteIndex, _) =>
          let note := notes !! noteIndex in
          let updatedNotes :=
            match note with
            | Some n =>
                <[noteIndex :=
                    {| BookNote.id := BookNote.id n;
                       BookNote.bookHash := BookNote.bookHash n;
                       BookNote.type := BookNote.type n;
                       BookNote.cfi := BookNote.cfi n;
                       BookNote.text := BookNote.text n;
                       BookNote.note := BookNote.note n;
                       BookNote.style := BookNote.style n;
                       BookNote.color := BookNote.color n;
                       BookNote.createdAt := BookNote.createdAt n;
                       BookNote.updatedAt := updatedAtNow;
                       BookNote.deletedAt := Some deletedAtNow |}]> notes
            | None => notes
            end in
          let '(host1, updatedConfig) :=
            updateBooknotes (_bookKey self) updatedNotes host in
          let host2 :=
            match getView (_bookKey self) host1, note with
            | Some view, Some n =>
                match addAnnotation view n true with
                | Some view' => set_views (λ vs, <[_bookKey self := view']> vs) host1
                | None => host1
                end
            | _, _ => host1
            end in
          match updatedConfig with
          | Some c => saveConfig (_bookKey self) c host2
          | None => host2
          end
      end
  end.

(** ** The batch operation, the layers, and the capability of the host *)

(** The new notes of a batch: the i-th annotation is turned into a note with
    the i-th reading of the clock and of the random source. *)
Definition newNotesOf (annotations : list SDKNewAnnotation.t)
    (bookHash : option string) (stamps : nat → Z * string) : list BookNote.t :=
  imap (λ i annotation,
          mapSDKAnnotationToBookNote annotation bookHash None
            (stamps i).1 (stamps i).2)
    annotations.

(** [for (const note of newNotes) { try { view.addAnnotation(note) } catch {} }]. *)
Definition renderAll (view : FoliateView) (notes : list BookNote.t) : FoliateView :=
  foldl (λ v note, default v (addAnnotation v note false)) view notes.

Definition createAnnotations (self : ReadestAnnotationDataProvider)
    (annotations : list SDKNewAnnotation.t) (stamps : nat → Z * string)
    (host : Host) : Host * list SDKAnnotation.t :=
  let bookHash := getBookHash (_bookKey self) host in
  let newNotes := newNotesOf annotations bookHash stamps in
  let config := getConfig (_bookKey self) host in
  let existingNotes := default [] (config ≫= booknotes) in
  let updatedNotes := existingNotes ++ newNotes in
  let '(host1, updatedConfig) := updateBooknotes (_bookKey self) updatedNotes host in
  let host2 :=
    match getView (_bookKey self) host1 with
    | Some view =>
        set_views (λ vs, <[_bookKey self := renderAll view newNotes]> vs) host1
    | None => host1
    end in
  let host3 :=
    match updatedConfig with
    | Some c => saveConfig (_bookKey self) c host2
    | None => host2
    end in
  (host3,
   (λ note, mapBookNoteToSDKAnnotation toISOString note (_pluginId self))
     <$> newNotes).

(** The annotation capability the host provider hands out
    ([ReadestHostAPIProvider.createAnnotationAPI]): the key the accessor
    answers when the capability is made, and the plugin id 'readest'. *)
Definition createAnnotationAPI {H : Type} (bookKeyAccessor : H → option string)
    (h : H) : ReadestAnnotationDataProvider :=
  let bookKey := default "" (bookKeyAccessor h) in
  {| _bookKey := bookKey; _pluginId := "readest" |}.

(** ** A small host to run the provider on *)

Definition exampleNote (id cfi : string) : BookNote.t :=
  {| BookNote.id := id;
     BookNote.bookHash := Some "hash-1";
     BookNote.type := TypeMappers.annotation;
     BookNote.cfi := cfi;
     BookNote.text := Some "some text";
     BookNote.note := "";
     BookNote.style := Some "highlight";
     BookNote.color := Some "yellow";
     BookNote.createdAt := 1700000000000;
     BookNote.updatedAt := 1700000000000;
     BookNote.deletedAt := None |}.

Definition exampleHost : Host :=
  {| configs :=
       {[ "book-1" :=
            {| booknotes := Some [exampleNote "note-1" "epubcfi(/6/4!/4/2)";
                                  exampleNote "note-2" "epubcfi(/6/8!/4/6)"] |} ]};
     bookHashes := {[ "book-1" := "hash-1" ]};
     views := {[ "book-1" := {| rendered := []; rendering_fails := false |} ]};
     savedConfigs := [] |}.

Definition exampleProvider : ReadestAnnotationDataProvider :=
  {| _bookKey := "book-1"; _pluginId := "readest" |}.

Definition exampleNewAnnotation (chapterIndex : Z) (type : SDKAnnotationType)
    : SDKNewAnnotation.t :=
  {| SDKNewAnnotation.chapterIndex := chapterIndex;
     SDKNewAnnotation.type := type;
     SDKNewAnnotation.content := "a remark";
     SDKNewAnnotation.style := Some "underline:red";
     SDKNewAnnotation.metadata := Some {[ "source" := "example" ]} |}.

(** The capability the host hands out while no book is active: the accessor
    answers null, so the provider is made for the key ''. *)
Definition detachedProvider : ReadestAnnotationDataProvider :=
  createAnnotationAPI (λ _ : unit, None) tt.

(** A book whose stored notes hold the id "dup" twice. *)
Definition duplicateHost : Host :=
  {| configs :=
       {[ "book-1" :=
            {| booknotes := Some [exampleNote "dup" "epubcfi(/6/4!/4/2)";
                                  exampleNote "dup" "epubcfi(/6/8!/4/6)"] |} ]};
     bookHashes := {[ "book-1" := "hash-1" ]};
     views := {[ "book-1" := {| rendered := []; rendering_fails := false |} ]};
     savedConfigs := [] |}.

(** Dates are rendered by the platform; the examples print the milliseconds. *)
Definition exampleDate (ms : Z) : string := JS.number_to_string ms.

(** ** What the store holds after an operation *)

Definition stamped (n : BookNote.t) (deletedAtNow updatedAtNow : Z) : BookNote.t :=
  {| BookNote.id := BookNote.id n;
     BookNote.bookHash := BookNote.bookHash n;
     BookNote.type := BookNote.type n;
     BookNote.cfi := BookNote.cfi n;
     BookNote.text := BookNote.text n;
     BookNote.note := BookNote.note n;
     BookNote.style := BookNote.style n;
     BookNote.color := BookNote.color n;
     BookNote.createdAt := BookNote.createdAt n;
     BookNote.updatedAt := updatedAtNow;
     BookNote.deletedAt := Some deletedAtNow |}.

Lemma configs_createAnnotation self annotation now suffix host c :
  getConfig (_bookKey self) host = Some c →
  configs (createAnnotation self annotation now suffix host).1
  = <[_bookKey self :=
        {| booknotes :=
             Some (storedNotes self host
                   ++ [mapSDKAnnotationToBookNote annotation
                         (getBookHash (_bookKey self) host) None now suffix]) |}]>
      (configs host).
Proof.
  intros Hc. unfold createAnnotation, updateBooknotes, storedNotes.
  unfold getConfig in *. rewrite Hc. simpl.
  unfold getView. simpl.
  destruct (views host !! _bookKey self) as [view|]; simpl; [|done].
  by destruct (addAnnotation view _ false).
Qed.

Lemma storedNotes_createAnnotation self annotation now suffix host :
  is_Some (getConfig (_bookKey self) host) →
  getConfig (_bookKey self) (createAnnotation self annotation now suffix host).1
    ≫= booknotes
  = Some (storedNotes self host
          ++ [mapSDKAnnotationToBookNote annotation
                (getBookHash (_bookKey self) host) None now suffix]).
Proof.
  intros [c Hc]. unfold getConfig at 1.
  rewrite (configs_createAnnotation _ _ _ _ _ c Hc).
  by rewrite lookup_insert_eq.
Qed.

Lemma deleteAnnotation_found self annotationId tDel tUpd host notes i n :
  getConfig (_bookKey self) host ≫= booknotes = Some notes →
  list_find (λ n, BookNote.id n = annotationId) notes = Some (i, n) →
  getConfig (_bookKey self) (deleteAnnotation self annotationId tDel tUpd host)
    ≫= booknotes
  = Some (<[i := stamped n tDel tUpd]> notes).
Proof.
  intros Hnotes Hfind. unfold deleteAnnotation. rewrite Hnotes, Hfind.
  apply list_find_Some in Hfind as (Hi & _ & _). rewrite Hi.
  unfold updateBooknotes.
  destruct (getConfig (_bookKey self) host) as [c|] eqn:Hc; [|done].
  unfold getConfig in Hc. rewrite Hc. simpl.
  unfold getView. simpl.
  destruct (views host !! _bookKey self) as [view|]; simpl.
  - destruct (addAnnotation view n true); simpl;
      unfold getConfig; simpl; by rewrite lookup_insert_eq.
  - unfold getConfig; simpl; by rewrite lookup_insert_eq.
Qed.

Lemma deleteAnnotation_saved self annotationId tDel tUpd host notes i n :
  getConfig (_bookKey self) host ≫= booknotes = Some notes →
  list_find (λ n, BookNote.id n = annotationId) notes = Some (i, n) →
  savedConfigs (deleteAnnotation self annotationId tDel tUpd host)
  = savedConfigs host
    ++ [(_bookKey self, {| booknotes := Some (<[i := stamped n tDel tUpd]> notes) |})].
Proof.
  intros Hnotes Hfind. unfold deleteAnnotation. rewrite Hnotes, Hfind.
  apply list_find_Some in Hfind as (Hi & _ & _). rewrite Hi.
  unfold updateBooknotes.
  destruct (getConfig (_bookKey self) host) as [c|] eqn:Hc; [|done].
  unfold getConfig in Hc. rewrite Hc. simpl.
  unfold getView. simpl.
  destruct (views host !! _bookKey self) as [view|]; simpl; [|done].
  by destruct (addAnnotation view n true).
Qed.

Lemma deleteAnnotation_absent self annotationId tDel tUpd host :
  annotationId ∉ BookNote.id <$> storedNotes self host →
  deleteAnnotation self annotationId tDel tUpd host = host.
Proof.
  intros Habsent. unfold deleteAnnotation, storedNotes in *.
  destruct (getConfig (_bookKey self) host ≫= booknotes) as [notes|]; [|done].
  simpl in Habsent.
  destruct (list_find _ notes) as [[i n]|] eqn:Hfind; [|done].
  apply list_find_Some in Hfind as (Hi & Hid & _).
  exfalso. apply Habsent. rewrite <- Hid.
  apply list_elem_of_fmap_2. by eapply list_elem_of_lookup_2.
Qed.

Lemma getAnnotations_ids self chapterIndex host notes a :
  getConfig (_bookKey self) host ≫= booknotes = Some notes →
  a ∈ getAnnotations self chapterIndex host →
  ∃ note, note ∈ notes ∧ notDeleted note ∧ SDKAnnotation.id a = BookNote.id note.
Proof.
  intros Hnotes Ha. unfold getAnnotations in Ha. rewrite Hnotes in Ha.
  assert (a ∈ (λ note, mapBookNoteToSDKAnnotation toISOString note (_pluginId self))
                <$> filter notDeleted notes) as Hin.
  { destruct chapterIndex; [|done].
    by apply list_elem_of_filter in Ha as [_ Ha]. }
  apply list_elem_of_fmap in Hin as (note & -> & Hnote).
  apply list_elem_of_filter in Hnote as [Hactive Hnote].
  by exists note.
Qed.

(** C3, amended.  Deleting an id the store holds (ids being unique, the clock
    past the epoch) stamps the record instead of removing it: no listing, filtered by
    chapter or not, contains the id afterwards; the stored collection has as
    many records as before, among them the record of that id with
    [deletedAt] set; and that collection is what was handed to [saveConfig]
    last.  Deleting an id the store does not hold leaves the host as it
    was. *)
Theorem delete_is_soft (self : ReadestAnnotationDataProvider)
    (annotationId : string) (deletedAtNow updatedAtNow : Z) (host : Host) :
  deletedAtNow ≠ 0 →
  NoDup (BookNote.id <$> storedNotes self host) →
  let host' := deleteAnnotation self annotationId deletedAtNow updatedAtNow host in
  (annotationId ∈ BookNote.id <$> storedNotes self host →
     (∀ chapterIndex,
        annotationId ∉ SDKAnnotation.id <$> getAnnotations self chapterIndex host')
     ∧ length (storedNotes self host') = length (storedNotes self host)
     ∧ (∃ note, note ∈ storedNotes self host'
                ∧ BookNote.id note = annotationId
                ∧ BookNote.deletedAt note = Some deletedAtNow)
     ∧ last (savedConfigs host')
       = Some (_bookKey self, {| booknotes := Some (storedNotes self host') |}))
  ∧ (annotationId ∉ BookNote.id <$> storedNotes self host → host' = host).
Proof.
  intros Hclock Hnodup host'. split; [|by apply deleteAnnotation_absent].
  intros Hpresent. unfold storedNotes in Hpresent, Hnodup.
  destruct (getConfig (_bookKey self) host ≫= booknotes) as [notes|] eqn:Hnotes;
    [|by apply elem_of_nil in Hpresent].
  simpl in Hpresent, Hnodup.
  apply list_elem_of_fmap in Hpresent as (n0 & Hid0 & Hn0).
  destruct (list_find (λ n, BookNote.id n = annotationId) notes)
    as [[i n]|] eqn:Hfind.
  2:{ apply list_find_None in Hfind.
      rewrite Forall_forall in Hfind. by destruct (Hfind n0 Hn0). }
  pose proof (deleteAnnotation_found self annotationId deletedAtNow updatedAtNow
                host notes i n Hnotes Hfind) as Hafter.
  pose proof (deleteAnnotation_saved self annotationId deletedAtNow updatedAtNow
                host notes i n Hnotes Hfind) as Hsaved.
  fold host' in Hafter, Hsaved.
  apply list_find_Some in Hfind as (Hi & Hid & _).
  assert (i < length notes)%nat as Hlt by by eapply lookup_lt_Some.
  repeat split.
  - intros chapterIndex Hin.
    apply list_elem_of_fmap in Hin as (a & Ha & Hin).
    destruct (getAnnotations_ids _ _ _ _ _ Hafter Hin) as (note & Hnote & Hactive & Hida).
    apply list_elem_of_lookup in Hnote as [j Hj].
    destruct (decide (j = i)) as [->|Hne].
    + rewrite list_lookup_insert_eq in Hj by done.
      injection Hj as <-. unfold notDeleted in Hactive. simpl in Hactive. done.
    + rewrite list_lookup_insert_ne in Hj by done.
      apply Hne. eapply NoDup_lookup; [exact Hnodup | |].
      * rewrite list_lookup_fmap, Hj. simpl. reflexivity.
      * rewrite list_lookup_fmap, Hi. simpl. congruence.
  - unfold storedNotes. rewrite Hafter, Hnotes. simpl. by rewrite length_insert.
  - exists (stamped n deletedAtNow updatedAtNow). unfold storedNotes.
    rewrite Hafter. simpl. repeat split; [|done].
    eapply list_elem_of_lookup_2. by apply list_lookup_insert_eq.
  - rewrite Hsaved, last_snoc. unfold storedNotes. by rewrite Hafter.
Qed.

Lemma createAnnotation_result self annotation now suffix host :
  (createAnnotation self annotation now suffix host).2
  = mapBookNoteToSDKAnnotation toISOString
      (mapSDKAnnotationToBookNote annotation
         (getBookHash (_bookKey self) host) None now suffix)
      (_pluginId self).
Proof. unfold createAnnotation. by destruct (updateBooknotes _ _ host). Qed.

(** A note that was just created is not deleted, so it is listed whenever the
    book's config is in the store. *)
Lemma created_annotation_listed self annotation now suffix host :
  is_Some (getConfig (_bookKey self) host) →
  let result := createAnnotation self annotation now suffix host in
  result.2 ∈ getAnnotations self None result.1
  ∧ result.2
    ∈ getAnnotations self (Some (SDKAnnotation.chapterIndex result.2)) result.1.
Proof.
  intros Hloaded result.
  pose proof (storedNotes_createAnnotation self annotation now suffix host Hloaded)
    as Hstored.
  fold result in Hstored.
  pose proof (createAnnotation_result self annotation now suffix host) as Hres.
  fold result in Hres.
  assert (result.2 ∈ getAnnotations self None result.1) as Hall.
  { unfold getAnnotations. rewrite Hstored, Hres.
    apply (list_elem_of_fmap_2
             (λ note, mapBookNoteToSDKAnnotation toISOString note (_pluginId self))).
    apply list_elem_of_filter. split.
    - by unfold notDeleted.
    - apply elem_of_app. right. apply list_elem_of_here. }
  split; [done|].
  unfold getAnnotations in *. rewrite Hstored in *.
  apply list_elem_of_filter. by split.
Qed.

(** C9, amended.  Host note type to SDK type and back is the identity on the
    three host types.  The other way round it is not: 'footnote' comes back
    as 'highlight'.  So an annotation created with type 'footnote' is
    returned with type 'highlight', whatever the store holds, and it is
    listed with that type when the config of the provider's book is in the
    store. *)
Theorem footnote_comes_back_as_highlight (self : ReadestAnnotationDataProvider)
    (annotation : SDKNewAnnotation.t) (now : Z) (suffix : string) (host : Host) :
  SDKNewAnnotation.type annotation = footnote →
  let result := createAnnotation self annotation now suffix host in
  (mapReadestNoteTypeToSDK bookmark = sidebar
   ∧ mapSDKTypeToReadestNoteType sidebar = bookmark)
  ∧ (mapReadestNoteTypeToSDK TypeMappers.annotation = highlight
     ∧ mapSDKTypeToReadestNoteType highlight = TypeMappers.annotation)
  ∧ (mapReadestNoteTypeToSDK excerpt = comment
     ∧ mapSDKTypeToReadestNoteType comment = excerpt)
  ∧ (∀ t, mapSDKTypeToReadestNoteType (mapReadestNoteTypeToSDK t) = t)
  ∧ mapSDKTypeToReadestNoteType footnote = TypeMappers.annotation
  ∧ mapReadestNoteTypeToSDK (mapSDKTypeToReadestNoteType footnote) = highlight
  ∧ mapReadestNoteTypeToSDK (mapSDKTypeToReadestNoteType footnote) ≠ footnote
  ∧ SDKAnnotation.type result.2 = highlight
  ∧ (is_Some (getConfig (_bookKey self) host) →
     result.2 ∈ getAnnotations self None result.1).
Proof.
  intros Htype result.
  split; [done|]. split; [done|]. split; [done|].
  split; [apply note_type_round_trip|].
  split; [done|]. split; [done|]. split; [done|].
  split.
  - unfold result. rewrite createAnnotation_result.
    unfold mapBookNoteToSDKAnnotation, mapSDKAnnotationToBookNote. simpl.
    by rewrite Htype.
  - intros Hloaded. by apply created_annotation_listed.
Qed.

(** C10, amended.  For an integer chapter index n >= 0 whose step (n+1)*2
    is within [Number.MAX_SAFE_INTEGER] and a new annotation with no 'cfi'
    metadata entry (and no explicit CFI), the note gets the CFI
    epubcfi(/6/<(n+1)*2>!), the section index read back from it is n, the
    annotation is returned with chapter index n, and it is in the listing
    for chapter n when the config of the provider's book is in the store. *)
Theorem created_annotation_found_under_its_chapter
    (self : ReadestAnnotationDataProvider) (annotation : SDKNewAnnotation.t)
    (bookHash : option string) (now : Z) (suffix : string) (host : Host) (n : Z) :
  0 ≤ n →
  (n + 1) * 2 ≤ JS.MAX_SAFE_INTEGER →
  SDKNewAnnotation.chapterIndex annotation = n →
  SDKNewAnnotation.metadata annotation ≫= (λ m, m !! "cfi") = None →
  let note := mapSDKAnnotationToBookNote annotation bookHash None now suffix in
  let result := createAnnotation self annotation now suffix host in
  BookNote.cfi note
  = "epubcfi(/6/" +:+ JS.number_to_string ((n + 1) * 2) +:+ "!)"
  ∧ extractSectionIndexFromCFI (BookNote.cfi note) = n
  ∧ SDKAnnotation.chapterIndex result.2 = n
  ∧ (is_Some (getConfig (_bookKey self) host) →
     result.2 ∈ getAnnotations self (Some n) result.1).
Proof.
  intros Hn _ Hindex Hmeta note result.
  assert (∀ h, BookNote.cfi (mapSDKAnnotationToBookNote annotation h None now suffix)
               = synthesizedCFI n) as Hcfi.
  { intros h. unfold mapSDKAnnotationToBookNote. simpl. by rewrite Hmeta, Hindex. }
  assert (SDKAnnotation.chapterIndex result.2 = n) as Hchapter.
  { unfold result. rewrite createAnnotation_result.
    unfold mapBookNoteToSDKAnnotation. cbn [SDKAnnotation.chapterIndex].
    rewrite Hcfi. by apply extract_synthesized. }
  repeat split.
  - unfold note. by rewrite Hcfi.
  - unfold note. rewrite Hcfi. by apply extract_synthesized.
  - done.
  - intros Hloaded. rewrite <- Hchapter at 1.
    by apply created_annotation_listed.
Qed.

(** ** What a deletion leaves in the listings *)

Lemma filter_all {A} (P : A → Prop) `{!∀ x, Decision (P x)} (l : list A) :
  Forall P l → filter P l = l.
Proof.
  induction 1 as [|x l Hx _ IH]; [done|].
  by rewrite filter_cons_True, IH.
Qed.

Lemma listing_without self (id : string) (notes : list BookNote.t) :
  id ∉ BookNote.id <$> notes →
  filter (λ a, SDKAnnotation.id a ≠ id)
    ((λ note, mapBookNoteToSDKAnnotation toISOString note (_pluginId self))
       <$> filter notDeleted notes)
  = (λ note, mapBookNoteToSDKAnnotation toISOString note (_pluginId self))
      <$> filter notDeleted notes.
Proof.
  intros Habsent. apply filter_all, Forall_forall. intros a Ha Heq.
  subst id. apply list_elem_of_fmap in Ha as (note & -> & Hnote).
  apply list_elem_of_filter in Hnote as [_ Hnote].
  apply Habsent. by apply (list_elem_of_fmap_2 BookNote.id).
Qed.

Lemma listing_after_stamp self (notes : list BookNote.t) i n tDel tUpd :
  tDel ≠ 0 →
  NoDup (BookNote.id <$> notes) →
  notes !! i = Some n →
  (λ note, mapBookNoteToSDKAnnotation toISOString note (_pluginId self))
    <$> filter notDeleted (<[i := stamped n tDel tUpd]> notes)
  = filter (λ a, SDKAnnotation.id a ≠ BookNote.id n)
      ((λ note, mapBookNoteToSDKAnnotation toISOString note (_pluginId self))
         <$> filter notDeleted notes).
Proof.
  intros Hclock. revert i. induction notes as [|x notes IH]; intros i Hnodup Hi.
  { done. }
  rewrite fmap_cons in Hnodup. apply NoDup_cons in Hnodup as [Hx Hnodup].
  destruct i as [|i]; simpl in Hi.
  - injection Hi as ->. simpl.
    rewrite filter_cons_False by (unfold notDeleted; simpl; done).
    destruct (decide (notDeleted n)) as [Hn|Hn].
    + rewrite (filter_cons_True notDeleted) by done.
      rewrite fmap_cons, filter_cons_False by (simpl; tauto).
      by rewrite listing_without.
    + rewrite (filter_cons_False notDeleted) by done.
      by rewrite listing_without.
  - simpl.
    assert (BookNote.id x ≠ BookNote.id n) as Hne.
    { intros Heq. apply Hx. rewrite Heq.
      apply (list_elem_of_fmap_2 BookNote.id). by eapply list_elem_of_lookup_2. }
    destruct (decide (notDeleted x)) as [Hact|Hact].
    + rewrite !(filter_cons_True notDeleted) by done.
      rewrite !fmap_cons, filter_cons_True by (simpl; done).
      by rewrite IH.
    + rewrite !(filter_cons_False notDeleted) by done.
      by apply IH.
Qed.

(** X8. A deletion touches one annotation only: ids being unique and the
    clock past the epoch, every listing after the deletion, filtered by
    chapter or not, is the listing before it without the annotation of that
    id, the others in their order and unchanged. *)
Theorem delete_keeps_the_other_annotations
    (self : ReadestAnnotationDataProvider) (annotationId : string)
    (deletedAtNow updatedAtNow : Z) (chapterIndex : option Z) (host : Host) :
  deletedAtNow ≠ 0 →
  NoDup (BookNote.id <$> storedNotes self host) →
  getAnnotations self chapterIndex
    (deleteAnnotation self annotationId deletedAtNow updatedAtNow host)
  = filter (λ a, SDKAnnotation.id a ≠ annotationId)
      (getAnnotations self chapterIndex host).
Proof.
  intros Hclock Hnodup. unfold storedNotes in Hnodup.
  destruct (getConfig (_bookKey self) host ≫= booknotes) as [notes|] eqn:Hnotes.
  2:{ unfold deleteAnnotation. rewrite Hnotes.
      unfold getAnnotations. by rewrite Hnotes. }
  simpl in Hnodup.
  destruct (list_find (λ n, BookNote.id n = annotationId) notes)
    as [[i n]|] eqn:Hfind.
  - pose proof (deleteAnnotation_found self annotationId deletedAtNow
                  updatedAtNow host notes i n Hnotes Hfind) as Hafter.
    apply list_find_Some in Hfind as (Hi & <- & _).
    unfold getAnnotations. rewrite Hafter, Hnotes.
    rewrite (listing_after_stamp self notes i n) by done.
    destruct chapterIndex as [index|]; [|done].
    rewrite !list_filter_filter. apply list_filter_iff. tauto.
  - unfold deleteAnnotation. rewrite Hnotes, Hfind.
    assert (annotationId ∉ BookNote.id <$> notes) as Habsent.
    { intros Hin. apply list_elem_of_fmap in Hin as (n0 & -> & Hn0).
      apply list_find_None in Hfind. rewrite Forall_forall in Hfind.
      by apply (Hfind n0 Hn0). }
    unfold getAnnotations. rewrite Hnotes.
    destruct chapterIndex as [index|]; [|by rewrite listing_without].
    rewrite list_filter_filter.
    rewrite <- (listing_without self annotationId notes Habsent) at 1.
    rewrite list_filter_filter. apply list_filter_iff. tauto.
Qed.

(** ** The batch operation *)

Lemma configs_createAnnotations self annotations stamps host c :
  getConfig (_bookKey self) host = Some c →
  configs (createAnnotations self annotations stamps host).1
  = <[_bookKey self :=
        {| booknotes :=
             Some (storedNotes self host
                   ++ newNotesOf annotations
                        (getBookHash (_bookKey self) host) stamps) |}]>
      (configs host)
  ∧ savedConfigs (createAnnotations self annotations stamps host).1
    = savedConfigs host
      ++ [(_bookKey self,
           {| booknotes :=
                Some (storedNotes self host
                      ++ newNotesOf annotations
                           (getBookHash (_bookKey self) host) stamps) |})].
Proof.
  intros Hc. unfold createAnnotations, updateBooknotes, storedNotes.
  unfold getConfig in *. rewrite Hc. simpl.
  unfold getView. simpl.
  by destruct (views host !! _bookKey self) as [view|].
Qed.

Lemma newNotesOf_not_deleted annotations bookHash stamps note :
  note ∈ newNotesOf annotations bookHash stamps → notDeleted note.
Proof.
  unfold newNotesOf. intros Hin.
  apply list_elem_of_lookup in Hin as [i Hi].
  rewrite list_lookup_imap in Hi.
  destruct (annotations !! i) as [annotation|]; [|done].
  injection Hi as <-. by unfold notDeleted.
Qed.

(** X9. A batch of new annotations on a book the store holds: the stored
    collection is the old one followed by the new notes in the order of the
    batch, one annotation is returned per element of the batch, every
    returned annotation is in the listing afterwards, and the whole batch is
    handed to [saveConfig] in one call. *)
Theorem batch_is_stored_in_order (self : ReadestAnnotationDataProvider)
    (annotations : list SDKNewAnnotation.t) (stamps : nat → Z * string)
    (host : Host) :
  is_Some (getConfig (_bookKey self) host) →
  let result := createAnnotations self annotations stamps host in
  let newNotes :=
    newNotesOf annotations (getBookHash (_bookKey self) host) stamps in
  storedNotes self result.1 = storedNotes self host ++ newNotes
  ∧ length result.2 = length annotations
  ∧ (∀ a, a ∈ result.2 → a ∈ getAnnotations self None result.1)
  ∧ savedConfigs result.1
    = savedConfigs host
      ++ [(_bookKey self, {| booknotes := Some (storedNotes self result.1) |})].
Proof.
  intros [c Hc] result newNotes.
  destruct (configs_createAnnotations self annotations stamps host c Hc)
    as [Hconfigs Hsaved].
  fold result newNotes in Hconfigs, Hsaved.
  assert (getConfig (_bookKey self) result.1 ≫= booknotes
          = Some (storedNotes self host ++ newNotes)) as Hstored.
  { unfold getConfig. by rewrite Hconfigs, lookup_insert_eq. }
  assert (result.2
          = (λ note, mapBookNoteToSDKAnnotation toISOString note (_pluginId self))
              <$> newNotes) as Hres.
  { unfold result, createAnnotations. by destruct (updateBooknotes _ _ host). }
  assert (storedNotes self result.1 = storedNotes self host ++ newNotes)
    as Hnotes.
  { unfold storedNotes at 1. by rewrite Hstored. }
  split; [|split; [|split]].
  - done.
  - rewrite Hres, length_fmap. unfold newNotes, newNotesOf. by rewrite length_imap.
  - intros a Ha. rewrite Hres in Ha.
    apply list_elem_of_fmap in Ha as (note & -> & Hnote).
    unfold getAnnotations. rewrite Hstored.
    apply (list_elem_of_fmap_2
             (λ note, mapBookNoteToSDKAnnotation toISOString note (_pluginId self))).
    apply list_elem_of_filter. split.
    + by eapply newNotesOf_not_deleted.
    + apply elem_of_app. by right.
  - by rewrite Hsaved, Hnotes.
Qed.

(** ** Rendering is best effort *)

(** X10. What becomes of the view has no bearing on what is stored: with any
    views in place of the host's (none, one that renders, one that throws),
    [createAnnotation] returns the same annotation, leaves the same configs
    and hands the same config to [saveConfig]. *)
Theorem rendering_failure_loses_nothing (self : ReadestAnnotationDataProvider)
    (annotation : SDKNewAnnotation.t) (now : Z) (suffix : string) (host : Host)
    (otherViews : gmap string FoliateView) :
  let other := set_views (λ _, otherViews) host in
  let result := createAnnotation self annotation now suffix host in
  let result' := createAnnotation self annotation now suffix other in
  result'.2 = result.2
  ∧ configs result'.1 = configs result.1
  ∧ savedConfigs result'.1 = savedConfigs result.1.
Proof.
  intros other result result'. subst other result result'.
  unfold createAnnotation, updateBooknotes, getConfig, getBookHash, getView.
  simpl.
  destruct (configs host !! _bookKey self) as [c|]; simpl.
  - destruct (views host !! _bookKey self) as [v|],
      (otherViews !! _bookKey self) as [v'|] eqn:Hother; simpl;
      try destruct (addAnnotation v _ false);
      try destruct (addAnnotation v' _ false) eqn:Hadd; simpl;
      by repeat split.
  - destruct (views host !! _bookKey self) as [v|],
      (otherViews !! _bookKey self) as [v'|] eqn:Hother; simpl;
      try destruct (addAnnotation v _ false);
      try destruct (addAnnotation v' _ false) eqn:Hadd; simpl;
      by repeat split.
Qed.

(** ** Layers *)

(** X11. The layer directory: a created layer is found under the id that
    was returned (its own id if it has one), attributed to the provider's
    plugin whatever the layer said, and no other layer is touched; changing
    its visibility changes only that; deleting it makes it unknown; and
    setting the visibility of an unknown layer leaves the directory as it
    is. *)
Theorem layer_directory {Details : Type} (self : ReadestAnnotationDataProvider)
    (layer : SDKAnnotationLayer.t Details) (now : Z) (suffix : string)
    (layers : gmap string (SDKAnnotationLayer.t Details)) :
  let created := createLayer self layer now suffix layers in
  let id := created.2 in
  (∀ own, SDKAnnotationLayer.id layer = Some own → id = own)
  ∧ getLayer id created.1
    = Some {| SDKAnnotationLayer.id := Some id;
              SDKAnnotationLayer.pluginId := _pluginId self;
              SDKAnnotationLayer.visible := SDKAnnotationLayer.visible layer;
              SDKAnnotationLayer.details := SDKAnnotationLayer.details layer |}
  ∧ (∀ other, other ≠ id → getLayer other created.1 = getLayer other layers)
  ∧ (∀ v, getLayer id (setLayerVisible id v created.1)
          = Some {| SDKAnnotationLayer.id := Some id;
                    SDKAnnotationLayer.pluginId := _pluginId self;
                    SDKAnnotationLayer.visible := v;
                    SDKAnnotationLayer.details := SDKAnnotationLayer.details layer |})
  ∧ getLayer id (deleteLayer id created.1) = None
  ∧ (∀ unknown v, getLayer unknown layers = None →
       setLayerVisible unknown v layers = layers).
Proof.
  intros created id. subst created id.
  unfold createLayer, getLayer, setLayerVisible, deleteLayer. simpl.
  split; [by intros own ->|].
  split; [by rewrite lookup_insert_eq|].
  split; [intros other Hother; by rewrite lookup_insert_ne|].
  split; [intros v; by rewrite !lookup_insert_eq|].
  split; [by rewrite lookup_delete_eq|].
  by intros unknown v ->.
Qed.

(** ** Chapters below zero, and attribution *)

(** X12. An annotation created with a negative chapter index (and no CFI of
    its own) is filed under chapter 0: it is returned with chapter index 0
    and, the book being in the store, it is in the listing of chapter 0. *)
Theorem negative_chapter_is_filed_under_zero
    (self : ReadestAnnotationDataProvider) (annotation : SDKNewAnnotation.t)
    (now : Z) (suffix : string) (host : Host) :
  SDKNewAnnotation.chapterIndex annotation < 0 →
  SDKNewAnnotation.metadata annotation ≫= (λ m, m !! "cfi") = None →
  is_Some (getConfig (_bookKey self) host) →
  let result := createAnnotation self annotation now suffix host in
  SDKAnnotation.chapterIndex result.2 = 0
  ∧ result.2 ∈ getAnnotations self (Some 0) result.1.
Proof.
  intros Hneg Hmeta Hloaded result.
  assert (SDKAnnotation.chapterIndex result.2 = 0) as Hzero.
  { unfold result. rewrite createAnnotation_result.
    unfold mapBookNoteToSDKAnnotation. cbn [SDKAnnotation.chapterIndex].
    unfold mapSDKAnnotationToBookNote. simpl. rewrite Hmeta.
    by apply extract_synthesized_negative. }
  split; [done|]. rewrite <- Hzero at 1.
  by apply created_annotation_listed.
Qed.

(** X13. Through the annotation capability the host hands out, every
    annotation is attributed to the plugin id 'readest', whichever plugin
    holds the capability, and carries the offsets 0 and 0: those that are
    listed and the one [createAnnotation] returns. *)
Theorem host_capability_attributes_to_readest {H : Type}
    (bookKeyAccessor : H → option string) (h : H)
    (chapterIndex : option Z) (annotation : SDKNewAnnotation.t)
    (now : Z) (suffix : string) (host : Host) :
  let api := createAnnotationAPI bookKeyAccessor h in
  let attributed (a : SDKAnnotation.t) :=
    SDKAnnotation.pluginId a = "readest"
    ∧ SDKAnnotation.startOffset a = 0 ∧ SDKAnnotation.endOffset a = 0 in
  (∀ a, a ∈ getAnnotations api chapterIndex host → attributed a)
  ∧ attributed (createAnnotation api annotation now suffix host).2.
Proof.
  intros api attributed. split.
  - intros a Ha. unfold getAnnotations in Ha.
    destruct (getConfig (_bookKey api) host ≫= booknotes) as [notes|];
      [|by apply elem_of_nil in Ha].
    assert (a ∈ (λ note, mapBookNoteToSDKAnnotation toISOString note (_pluginId api))
                  <$> filter notDeleted notes) as Hin.
    { destruct chapterIndex; [|done].
      by apply list_elem_of_filter in Ha as [_ Ha]. }
    apply list_elem_of_fmap in Hin as (note & -> & _). by repeat split.
  - rewrite createAnnotation_result. by repeat split.
Qed.

End Provider.

(** C3 as stated, on a store that holds an id twice: the id is present,
    [deleteAnnotation] stamps the first record of that id only, and the
    listing afterwards still includes the id.  And on the example host with
    the clock at 0: the record of "note-1" is stamped with 0, which
    [!note.deletedAt] does not take for a deletion, so "note-1" is still
    listed. *)
Theorem delete_leaves_a_second_record_listed :
  let host' :=
    deleteAnnotation exampleProvider "dup" 1700000000123 1700000000124
      duplicateHost in
  let host0 := deleteAnnotation exampleProvider "note-1" 0 0 exampleHost in
  ("dup" ∈ (BookNote.id <$> storedNotes exampleProvider duplicateHost)
   ∧ "dup" ∈ (SDKAnnotation.id
              <$> getAnnotations exampleDate exampleProvider None host')
   ∧ "dup" ∈ (SDKAnnotation.id
              <$> getAnnotations exampleDate exampleProvider (Some 3) host'))
  ∧ ("note-1" ∈ (BookNote.id <$> storedNotes exampleProvider exampleHost)
     ∧ "note-1" ∈ (SDKAnnotation.id
                   <$> getAnnotations exampleDate exampleProvider None host0)).
Proof.
  intros host' host0. subst host' host0.
  split; [split; [|split]|split]; apply (bool_decide_unpack _); vm_compute;
    exact I.
Qed.

(** C9 as stated, through the capability made while no book is active: the
    footnote is returned with type 'highlight', but nothing is stored for
    the key '', so the listing afterwards is empty and does not include
    it. *)
Theorem footnote_without_a_book_is_not_listed :
  let result :=
    createAnnotation exampleDate detachedProvider
      (exampleNewAnnotation 3 footnote) 1700000000123 "k3x9qa" exampleHost in
  SDKAnnotation.type result.2 = highlight
  ∧ getAnnotations exampleDate detachedProvider None result.1 = []
  ∧ (result.2 ∉ getAnnotations exampleDate detachedProvider None result.1)
  ∧ savedConfigs result.1 = [].
Proof.
  intros result. subst result.
  split; [by vm_compute|]. split; [by vm_compute|].
  split; [|by vm_compute].
  intros Hin. vm_compute in Hin. by apply elem_of_nil in Hin.
Qed.

(** C10 as stated, through the capability made while no book is active: the
    annotation for chapter 3 is returned with chapter index 3, but the
    listing for chapter 3 afterwards does not include it. *)
Theorem annotation_without_a_book_is_not_under_its_chapter :
  let result :=
    createAnnotation exampleDate detachedProvider
      (exampleNewAnnotation 3 comment) 1700000000123 "k3x9qa" exampleHost in
  SDKNewAnnotation.metadata (exampleNewAnnotation 3 comment)
    ≫= (λ m, m !! "cfi") = None
  ∧ SDKAnnotation.chapterIndex result.2 = 3
  ∧ result.2 ∉ getAnnotations exampleDate detachedProvider (Some 3) result.1.
Proof.
  intros result. subst result.
  split; [by vm_compute|]. split; [by vm_compute|].
  intros Hin. vm_compute in Hin. by apply elem_of_nil in Hin.
Qed.

(** Deleting "note-1" on the example host. *)
Lemma delete_is_soft_witness :
  let host' :=
    deleteAnnotation exampleProvider "note-1" 1700000000123 1700000000124
      exampleHost in
  (∀ chapterIndex,
     "note-1" ∉ SDKAnnotation.id
                  <$> getAnnotations exampleDate exampleProvider chapterIndex host')
  ∧ length (storedNotes exampleProvider host')
    = length (storedNotes exampleProvider exampleHost)
  ∧ (∃ note, note ∈ storedNotes exampleProvider host'
             ∧ BookNote.id note = "note-1"
             ∧ BookNote.deletedAt note = Some 1700000000123)
  ∧ last (savedConfigs host')
    = Some ("book-1", {| booknotes := Some (storedNotes exampleProvider host') |}).
Proof.
  assert (NoDup (BookNote.id <$> storedNotes exampleProvider exampleHost))
    as Hunique by (apply (bool_decide_unpack _); vm_compute; exact I).
  assert ("note-1" ∈ BookNote.id <$> storedNotes exampleProvider exampleHost)
    as Hpresent by (apply (bool_decide_unpack _); vm_compute; exact I).
  exact (proj1 (delete_is_soft exampleDate exampleProvider "note-1"
                  1700000000123 1700000000124 exampleHost
                  ltac:(discriminate) Hunique) Hpresent).
Defined.

(** A footnote created on the example host. *)
Lemma footnote_comes_back_as_highlight_witness :
  let result :=
    createAnnotation exampleDate exampleProvider (exampleNewAnnotation 3 footnote)
      1700000000123 "k3x9qa" exampleHost in
  SDKAnnotation.type result.2 = highlight
  ∧ result.2 ∈ getAnnotations exampleDate exampleProvider None result.1.
Proof.
  assert (is_Some (getConfig (_bookKey exampleProvider) exampleHost))
    as Hloaded by (vm_compute; eauto).
  pose proof (footnote_comes_back_as_highlight exampleDate exampleProvider
                (exampleNewAnnotation 3 footnote) 1700000000123 "k3x9qa"
                exampleHost eq_refl)
    as (_ & _ & _ & _ & _ & _ & _ & Htype & Hlisted).
  split; [exact Htype | exact (Hlisted Hloaded)].
Defined.

(** An annotation created for chapter 3 on the example host. *)
Lemma created_annotation_found_under_its_chapter_witness :
  let result :=
    createAnnotation exampleDate exampleProvider (exampleNewAnnotation 3 footnote)
      1700000000123 "k3x9qa" exampleHost in
  SDKAnnotation.chapterIndex result.2 = 3
  ∧ result.2 ∈ getAnnotations exampleDate exampleProvider (Some 3) result.1.
Proof.
  assert (is_Some (getConfig (_bookKey exampleProvider) exampleHost))
    as Hloaded by (vm_compute; eauto).
  assert (SDKNewAnnotation.metadata (exampleNewAnnotation 3 footnote)
            ≫= (λ m, m !! "cfi") = None)
    as Hmeta by (vm_compute; reflexivity).
  assert ((3 + 1) * 2 ≤ JS.MAX_SAFE_INTEGER) as Hsafe by by vm_compute.
  pose proof (created_annotation_found_under_its_chapter exampleDate
                exampleProvider (exampleNewAnnotation 3 footnote)
                (Some "hash-1") 1700000000123 "k3x9qa" exampleHost 3
                ltac:(lia) Hsafe eq_refl Hmeta)
    as (_ & _ & Hchapter & Hlisted).
  split; [exact Hchapter | exact (Hlisted Hloaded)].
Defined.

(** A batch of two on the example host. *)
Lemma batch_is_stored_in_order_witness :
  let stamps (i : nat) := (1700000000123 + Z.of_nat i, "k3x9qa") in
  let batch := [exampleNewAnnotation 3 footnote; exampleNewAnnotation 1 comment] in
  let result := createAnnotations exampleDate exampleProvider batch stamps exampleHost in
  storedNotes exampleProvider result.1
  = storedNotes exampleProvider exampleHost
    ++ newNotesOf batch (Some "hash-1") stamps
  ∧ length result.2 = 2%nat.
Proof.
  assert (is_Some (getConfig (_bookKey exampleProvider) exampleHost))
    as Hloaded by (vm_compute; eauto).
  pose proof (batch_is_stored_in_order exampleDate exampleProvider
                [exampleNewAnnotation 3 footnote; exampleNewAnnotation 1 comment]
                (λ i : nat, (1700000000123 + Z.of_nat i, "k3x9qa"))
                exampleHost Hloaded) as (Hstored & Hlength & _).
  split; [exact Hstored | exact Hlength].
Defined.

(** An annotation for chapter -2 on the example host. *)
Lemma negative_chapter_is_filed_under_zero_witness :
  let result :=
    createAnnotation exampleDate exampleProvider (exampleNewAnnotation (-2) comment)
      1700000000123 "k3x9qa" exampleHost in
  SDKAnnotation.chapterIndex result.2 = 0
  ∧ result.2 ∈ getAnnotations exampleDate exampleProvider (Some 0) result.1.
Proof.
  assert (is_Some (getConfig (_bookKey exampleProvider) exampleHost))
    as Hloaded by (vm_compute; eauto).
  assert (SDKNewAnnotation.metadata (exampleNewAnnotation (-2) comment)
            ≫= (λ m, m !! "cfi") = None)
    as Hmeta by (vm_compute; reflexivity).
  exact (negative_chapter_is_filed_under_zero exampleDate exampleProvider
           (exampleNewAnnotation (-2) comment) 1700000000123 "k3x9qa" exampleHost
           ltac:(simpl; lia) Hmeta Hloaded).
Defined.

(** Deleting "note-1" on the example host leaves "note-2" listed. *)
Lemma delete_keeps_the_other_annotations_witness :
  getAnnotations exampleDate exampleProvider None
    (deleteAnnotation exampleProvider "note-1" 1700000000123 1700000000124
       exampleHost)
  = filter (λ a, SDKAnnotation.id a ≠ "note-1")
      (getAnnotations exampleDate exampleProvider None exampleHost).
Proof.
  assert (NoDup (BookNote.id <$> storedNotes exampleProvider exampleHost))
    as Hunique by (apply (bool_decide_unpack _); vm_compute; exact I).
  exact (delete_keeps_the_other_annotations exampleDate exampleProvider "note-1"
           1700000000123 1700000000124 None exampleHost
           ltac:(discriminate) Hunique).
Defined.

End AnnotationData.

(* ====================================================================== *)
(** * services/plugins/providers/ReadestBookDataProvider.ts
      and the book capability of ReadestHostAPIProvider.ts *)
(* ====================================================================== *)

Module BookData.

(** ** Host-side shapes (types/book, libs/document) *)

(** The host's [Book]: the fields [mapReadestBookToSDK] copies. *)
Module ReadestBook.
Record t := {
  hash : string;
  title : string;
  author : string;
  filePath : option string;
  format : string;
}.
End ReadestBook.

(** A section's resolved DOM document: what the chapter mapper reads of it,
    [documentElement?.outerHTML] and [body?.textContent]. *)
Module Document.
Record t := {
  outerHTML : option string;
  textContent : option string;
}.
End Document.

(** [SectionItem]: [createDocument] resolves to the section's document. *)
Module SectionItem.
Record t := {
  id : option string;
  href : option string;
  createDocument : Document.t;
}.
End SectionItem.

Module TOCItem.
#[local] Set Warnings "-register-all".
Inductive t := make {
  id : Z;
  label : string;
  href : string;
  subitems : option (list t);
}.
End TOCItem.

Module BookDoc.
Record t := {
  sections : option (list SectionItem.t);
  toc : option (list TOCItem.t);
}.
End BookDoc.

(** What [getBookData] hands out for a key. *)
Module BookDataEntry.
Record t := {
  book : option ReadestBook.t;
  bookDoc : option BookDoc.t;
}.
End BookDataEntry.

(** ** SDK shapes *)

Module SDKChapter.
Record t := {
  index : Z;
  title : string;
  href : string;
  html : string;
  text : string;
  wordCount : Z;
}.
End SDKChapter.

(** What a provider call throws. *)
Inductive ProviderError :=
| BookDocumentNotAvailable
| ChapterIndexOutOfRange (index last : Z)
| SectionUndefined (index : Z).

(** The text of the [Error]. *)
Definition message (e : ProviderError) : string :=
  match e with
  | BookDocumentNotAvailable => "Book document not available"
  | ChapterIndexOutOfRange index last =>
      "Chapter index " +:+ JS.number_to_string index
      +:+ " out of range (0-" +:+ JS.number_to_string last +:+ ")"
  | SectionUndefined index =>
      "Section at index " +:+ JS.number_to_string index +:+ " is undefined"
  end.

Inductive Result (A : Type) :=
| Returns (a : A)
| Throws (e : ProviderError).
Arguments Returns {A} a.
Arguments Throws {A} e.

(** ** typeMappers.ts, the chapter part *)

(** [flattenTOC] pushes each item, then the flattening of its subitems.  The
    recursion goes through the items nested in [subitems], so it is written
    on one item (with its subtree) and lifted to an array of items. *)
Fixpoint flattenTOCItem (item : TOCItem.t) : list TOCItem.t :=
  item
  :: match item with
     | TOCItem.make _ _ _ (Some subitems) =>
         (fix flattenItems (items : list TOCItem.t) : list TOCItem.t :=
            match items with
            | [] => []
            | sub :: rest => flattenTOCItem sub ++ flattenItems rest
            end) subitems
     | TOCItem.make _ _ _ None => []
     end.

Definition flattenTOC (items : list TOCItem.t) : list TOCItem.t :=
  flat_map flattenTOCItem items.

Definition mapSectionToSDKChapter (index : Z) (section : SectionItem.t)
    (doc : Document.t) (title : string) : SDKChapter.t :=
  let html := default "" (Document.outerHTML doc) in
  let text := default "" (Document.textContent doc) in
  let wordCount := JS.count_words false text in
  {| SDKChapter.index := index;
     SDKChapter.title := title;
     SDKChapter.href := default "" (SectionItem.href section);
     SDKChapter.html := html;
     SDKChapter.text := text;
     SDKChapter.wordCount := wordCount |}.

Module SDKChapterSummary.
Record t := {
  index : Z;
  title : string;
  href : string;
  wordCount : Z;
}.
End SDKChapterSummary.

Definition mapTOCToChapterSummaries (tocItems : list TOCItem.t)
    : list SDKChapterSummary.t :=
  (λ item,
     {| SDKChapterSummary.index := TOCItem.id item;
        SDKChapterSummary.title := TOCItem.label item;
        SDKChapterSummary.href := TOCItem.href item;
        SDKChapterSummary.wordCount := 0 |}) <$> tocItems.

(** The items of a TOC tree: those of the array itself, and those of the
    tree below one of them. *)
Inductive TOCTreeMember (x : TOCItem.t) : list TOCItem.t → Prop :=
| member_here items : x ∈ items → TOCTreeMember x items
| member_below items parent :
    parent ∈ items →
    TOCTreeMember x (default [] (TOCItem.subitems parent)) →
    TOCTreeMember x items.

(** The reader's [BookProgress] (types/book): the field the provider reads. *)
Module BookProgress.
Record t := {
  sectionId : Z;
}.
End BookProgress.

(** ** The host the accessors read *)

(** Modelled from the spec: the host's book-data store and the reader's
    notion of the active book (store/bookDataStore, store/readerStore) are
    not part of these sources.  The host holds the data of the open books by
    key, and the key of the book that is active right now. *)
Record Host := {
  booksData : gmap string BookDataEntry.t;
  activeBookKey : option string;
}.

(** The user switches to another book. *)
Definition switchBook (key : option string) (host : Host) : Host :=
  {| booksData := booksData host; activeBookKey := key |}.

(** [ReadestBookStoreAccessors.getBookData]. *)
Definition getBookData (key : string) (host : Host) : option BookDataEntry.t :=
  booksData host !! key.

(** ** ReadestBookDataProvider *)

Record ReadestBookDataProvider := {
  _bookKey : string;
}.

Section Provider.
(** The SDK's [Book] and the nested metadata object that [mapReadestBookToSDK]
    assembles with the formatting utilities of utils/book; the utilities are
    outside these sources and the object is kept abstract. *)
Context {SDKBookMetadata : Type}.
Variable bookMetadataToSDK : ReadestBook.t → SDKBookMetadata.

Record SDKBook := {
  sdk_id : string;
  sdk_title : string;
  sdk_author : string;
  sdk_filePath : string;
  sdk_format : string;
  sdk_metadata : SDKBookMetadata;
}.

Definition mapReadestBookToSDK (book : ReadestBook.t) : SDKBook :=
  {| sdk_id := ReadestBook.hash book;
     sdk_title := ReadestBook.title book;
     sdk_author := ReadestBook.author book;
     sdk_filePath := default "" (ReadestBook.filePath book);
     sdk_format := JS.toLowerCase (ReadestBook.format book);
     sdk_metadata := bookMetadataToSDK book |}.

Definition getCurrentBook (self : ReadestBookDataProvider) (host : Host)
    : option SDKBook :=
  match getBookData (_bookKey self) host ≫= BookDataEntry.book with
  | None => None
  | Some book => Some (mapReadestBookToSDK book)
  end.

Definition _findTitleForSection (sectionIndex : Z) (bookDoc : BookDoc.t) : string :=
  match BookDoc.toc bookDoc with
  | None => "Section " +:+ JS.number_to_string (sectionIndex + 1)
  | Some toc =>
      let flatToc := flattenTOC toc in
      match list_find (λ t, TOCItem.id t = sectionIndex) flatToc with
      | Some (_, item) => TOCItem.label item
      | None => "Section " +:+ JS.number_to_string (sectionIndex + 1)
      end
  end.

Definition _loadChapter (index : Z) (section : SectionItem.t) (bookDoc : BookDoc.t)
    : SDKChapter.t :=
  let doc := SectionItem.createDocument section in
  let title := _findTitleForSection index bookDoc in
  mapSectionToSDKChapter index section doc title.

Definition getChapter (self : ReadestBookDataProvider) (index : Z) (host : Host)
    : Result SDKChapter.t :=
  match getBookData (_bookKey self) host ≫= BookDataEntry.bookDoc with
  | None => Throws BookDocumentNotAvailable
  | Some bookDoc =>
      match BookDoc.sections bookDoc with
      | None => Throws BookDocumentNotAvailable
      | Some sections =>
          if (index <? 0) || (index >=? Z.of_nat (length sections)) then
            Throws (ChapterIndexOutOfRange index (Z.of_nat (length sections) - 1))
          else
            match sections !! Z.to_nat index with
            | None => Throws (SectionUndefined index)
            | Some section => Returns (_loadChapter index section bookDoc)
            end
      end
  end.

Definition getChapterCount (self : ReadestBookDataProvider) (host : Host) : Z :=
  match (getBookData (_bookKey self) host ≫= BookDataEntry.bookDoc)
          ≫= BookDoc.sections with
  | Some sections => Z.of_nat (length sections)
  | None => 0
  end.

(** [progress] is what the accessor [getProgress] answers for the
    provider's key. *)
Definition getCurrentChapter (self : ReadestBookDataProvider)
    (progress : option BookProgress.t) (host : Host) : option SDKChapter.t :=
  match progress with
  | None => None
  | Some progress =>
      match getBookData (_bookKey self) host ≫= BookDataEntry.bookDoc with
      | None => None
      | Some bookDoc =>
          match BookDoc.sections bookDoc with
          | None => None
          | Some sections =>
              let sectionIndex := BookProgress.sectionId progress in
              if (sectionIndex <? 0)
                 || (sectionIndex >=? Z.of_nat (length sections)) then None
              else
                match sections !! Z.to_nat sectionIndex with
                | None => None
                | Some section => Some (_loadChapter sectionIndex section bookDoc)
                end
          end
      end
  end.

(** The fallback of [getAllChapters]: one summary per section. *)
Definition sectionSummaries (sections : list SectionItem.t)
    : list SDKChapterSummary.t :=
  imap (λ (index : nat) section,
          {| SDKChapterSummary.index := Z.of_nat index;
             SDKChapterSummary.title :=
               default ("Section " +:+ JS.number_to_string (Z.of_nat index + 1))
                       (SectionItem.id section);
             SDKChapterSummary.href := default "" (SectionItem.href section);
             SDKChapterSummary.wordCount := 0 |}) sections.

Definition getAllChapters (self : ReadestBookDataProvider) (host : Host)
    : list SDKChapterSummary.t :=
  match getBookData (_bookKey self) host ≫= BookDataEntry.bookDoc with
  | None => []
  | Some bookDoc =>
      match BookDoc.toc bookDoc with
      | Some (item :: rest) =>
          mapTOCToChapterSummaries (flattenTOC (item :: rest))
      | _ => sectionSummaries (default [] (BookDoc.sections bookDoc))
      end
  end.

Definition getChapterHTML (self : ReadestBookDataProvider) (chapterIndex : Z)
    (host : Host) : Result string :=
  match getChapter self chapterIndex host with
  | Returns chapter => Returns (SDKChapter.html chapter)
  | Throws e => Throws e
  end.

Definition getChapterText (self : ReadestBookDataProvider) (chapterIndex : Z)
    (host : Host) : Result string :=
  match getChapter self chapterIndex host with
  | Returns chapter => Returns (SDKChapter.text chapter)
  | Throws e => Throws e
  end.

(** ** The book capability of ReadestHostAPIProvider *)

(** The provider keeps the accessor it was configured with; the accessor
    reads the host when it is called. *)
Record ReadestHostAPIProvider := {
  _bookKeyAccessor : Host → option string;
}.

(** [createBookAPI]: [this._bookKeyAccessor() ?? ''], then
    [new ReadestBookDataProvider(bookKey, accessors)].  The SDK's
    [BookAPIImpl] that wraps the provider is outside these sources; a call on
    the book capability is taken to be the provider's method of the same
    name. *)
Definition createBookAPI (self : ReadestHostAPIProvider) (host : Host)
    : ReadestBookDataProvider :=
  let bookKey := default "" (_bookKeyAccessor self host) in
  {| _bookKey := bookKey |}.

(** pluginInitService hands the host's own accessor to the provider. *)
Definition hostProvider : ReadestHostAPIProvider :=
  {| _bookKeyAccessor := activeBookKey |}.

(** ** Two open books *)

Definition exampleSection (name body : string) : SectionItem.t :=
  {| SectionItem.id := Some name;
     SectionItem.href := Some (name +:+ ".xhtml");
     SectionItem.createDocument :=
       {| Document.outerHTML := Some ("<html><body>" +:+ body +:+ "</body></html>");
          Document.textContent := Some body |} |}.

Definition exampleEntry (hash title : string) (sections : list SectionItem.t)
    : BookDataEntry.t :=
  {| BookDataEntry.book :=
       Some {| ReadestBook.hash := hash;
               ReadestBook.title := title;
               ReadestBook.author := "An Author";
               ReadestBook.filePath := None;
               ReadestBook.format := "EPUB" |};
     BookDataEntry.bookDoc :=
       Some {| BookDoc.sections := Some sections; BookDoc.toc := None |} |}.

Definition exampleHost : Host :=
  {| booksData :=
       {[ "hashA-1" := exampleEntry "hashA" "Book A"
                         [exampleSection "a1" "first words";
                          exampleSection "a2" "some more words here"];
          "hashB-1" := exampleEntry "hashB" "Book B"
                         [exampleSection "b1" "other text"] ]};
     activeBookKey := Some "hashA-1" |}.

Definition exampleApi : ReadestBookDataProvider :=
  {| _bookKey := "hashA-1" |}.

(** Book A with a table of contents of two levels. *)
Definition exampleToc : list TOCItem.t :=
  [TOCItem.make 0 "Opening" "a1.xhtml"
     (Some [TOCItem.make 1 "Second part" "a2.xhtml" None])].

Definition exampleTocDoc : BookDoc.t :=
  {| BookDoc.sections :=
       Some [exampleSection "a1" "first words";
             exampleSection "a2" "some more words here"];
     BookDoc.toc := Some exampleToc |}.

Definition exampleTocHost : Host :=
  {| booksData :=
       {[ "hashA-1" :=
            {| BookDataEntry.book := None;
               BookDataEntry.bookDoc := Some exampleTocDoc |} ]};
     activeBookKey := Some "hashA-1" |}.

(** Whether a call threw the out-of-range error. *)
Definition outOfRange {A} (r : Result A) : Prop :=
  match r with
  | Throws (ChapterIndexOutOfRange _ _) => True
  | _ => False
  end.

(** ** Chapter bounds *)

Lemma getChapter_in_range self host bookDoc sections index :
  getBookData (_bookKey self) host ≫= BookDataEntry.bookDoc = Some bookDoc →
  BookDoc.sections bookDoc = Some sections →
  0 ≤ index < Z.of_nat (length sections) →
  ∃ section, sections !! Z.to_nat index = Some section
             ∧ getChapter self index host
               = Returns (_loadChapter index section bookDoc).
Proof.
  intros Hdoc Hsections [Hlo Hhi]. unfold getChapter. rewrite Hdoc, Hsections.
  destruct (index <? 0) eqn:Hneg; [lia|].
  destruct (index >=? Z.of_nat (length sections)) eqn:Hge; [lia|]. simpl.
  destruct (lookup_lt_is_Some_2 sections (Z.to_nat index)) as [section Hsection];
    [lia|].
  exists section. by rewrite Hsection.
Qed.

Lemma getChapter_out_of_range self host bookDoc sections index :
  getBookData (_bookKey self) host ≫= BookDataEntry.bookDoc = Some bookDoc →
  BookDoc.sections bookDoc = Some sections →
  index < 0 ∨ Z.of_nat (length sections) ≤ index →
  getChapter self index host
  = Throws (ChapterIndexOutOfRange index (Z.of_nat (length sections) - 1)).
Proof.
  intros Hdoc Hsections Hout. unfold getChapter. rewrite Hdoc, Hsections.
  destruct (index <? 0) eqn:Hneg; [done|].
  destruct (index >=? Z.of_nat (length sections)) eqn:Hge; [done|]. lia.
Qed.

(** C6. With a book document of at least one section loaded under the
    provider's key: [getChapter (-1)] and [getChapter (getChapterCount ())]
    throw the out-of-range error, [getChapter (getChapterCount () - 1)]
    returns the chapter of that index, and [getChapter index] throws the
    out-of-range error exactly when index is outside [0, getChapterCount ()). *)
Theorem chapter_bounds (self : ReadestBookDataProvider) (host : Host)
    (bookDoc : BookDoc.t) (sections : list SectionItem.t) :
  getBookData (_bookKey self) host ≫= BookDataEntry.bookDoc = Some bookDoc →
  BookDoc.sections bookDoc = Some sections →
  sections ≠ [] →
  let count := getChapterCount self host in
  getChapter self (-1) host = Throws (ChapterIndexOutOfRange (-1) (count - 1))
  ∧ getChapter self count host = Throws (ChapterIndexOutOfRange count (count - 1))
  ∧ (∃ chapter, getChapter self (count - 1) host = Returns chapter
                ∧ SDKChapter.index chapter = count - 1)
  ∧ ∀ index, outOfRange (getChapter self index host) ↔ index < 0 ∨ count ≤ index.
Proof.
  intros Hdoc Hsections Hnonempty count.
  assert (count = Z.of_nat (length sections)) as Hcount.
  { unfold count, getChapterCount. rewrite Hdoc. simpl. by rewrite Hsections. }
  assert (0 < count) as Hpos.
  { rewrite Hcount. destruct sections; [done|]. simpl. lia. }
  rewrite Hcount in *. repeat split.
  - apply (getChapter_out_of_range _ _ bookDoc sections); auto; lia.
  - apply (getChapter_out_of_range _ _ bookDoc sections); auto; lia.
  - destruct (getChapter_in_range self host bookDoc sections
                (Z.of_nat (length sections) - 1) Hdoc Hsections)
      as (section & _ & Hget); [lia|].
    eexists. split; [exact Hget | reflexivity].
  - intros Hout.
    destruct (decide (0 ≤ index < Z.of_nat (length sections))) as [Hin|Hnot];
      [|lia].
    destruct (getChapter_in_range self host bookDoc sections index Hdoc Hsections Hin)
      as (section & _ & Hget).
    rewrite Hget in Hout. done.
  - intros Hout.
    by rewrite (getChapter_out_of_range self host bookDoc sections index
                  Hdoc Hsections Hout).
Qed.

(** ** The chapter at the cursor, and the content of a chapter *)

Lemma getChapterCount_sections self host bookDoc :
  getBookData (_bookKey self) host ≫= BookDataEntry.bookDoc = Some bookDoc →
  getChapterCount self host
  = Z.of_nat (length (default [] (BookDoc.sections bookDoc))).
Proof.
  intros Hdoc. unfold getChapterCount. rewrite Hdoc. simpl.
  by destruct (BookDoc.sections bookDoc).
Qed.

(** X14. The current chapter is the chapter at the reader's position:
    without progress there is none; with progress it is what [getChapter]
    returns for the progress' section index, and none where [getChapter]
    throws. *)
Theorem current_chapter_is_the_chapter_at_the_cursor
    (self : ReadestBookDataProvider) (progress : option BookProgress.t)
    (host : Host) :
  getCurrentChapter self progress host
  = match progress with
    | None => None
    | Some progress =>
        match getChapter self (BookProgress.sectionId progress) host with
        | Returns chapter => Some chapter
        | Throws _ => None
        end
    end.
Proof.
  unfold getCurrentChapter, getChapter. destruct progress as [progress|]; [|done].
  destruct (getBookData (_bookKey self) host ≫= BookDataEntry.bookDoc)
    as [bookDoc|]; [|done].
  destruct (BookDoc.sections bookDoc) as [sections|]; [|done]. simpl.
  destruct ((BookProgress.sectionId progress <? 0)
            || (BookProgress.sectionId progress >=? Z.of_nat (length sections)));
    [done|].
  by destruct (sections !! Z.to_nat (BookProgress.sectionId progress)).
Qed.

(** X15. The HTML and the text of a chapter are returned exactly for the
    indices from 0 to [getChapterCount () - 1], with or without a book
    document; outside them both calls throw.  Where [getChapter] returns,
    they return that chapter's html and text, and the chapter carries the
    index that was asked for. *)
Theorem chapter_content_exactly_in_range (self : ReadestBookDataProvider)
    (index : Z) (host : Host) :
  ((∃ html, getChapterHTML self index host = Returns html)
   ↔ 0 ≤ index < getChapterCount self host)
  ∧ ((∃ text, getChapterText self index host = Returns text)
     ↔ 0 ≤ index < getChapterCount self host)
  ∧ (∀ chapter, getChapter self index host = Returns chapter →
       getChapterHTML self index host = Returns (SDKChapter.html chapter)
       ∧ getChapterText self index host = Returns (SDKChapter.text chapter)
       ∧ SDKChapter.index chapter = index).
Proof.
  assert ((∃ chapter, getChapter self index host = Returns chapter)
          ↔ 0 ≤ index < getChapterCount self host) as Hrange.
  { unfold getChapter, getChapterCount.
    destruct (getBookData (_bookKey self) host ≫= BookDataEntry.bookDoc)
      as [bookDoc|]; simpl; [|split; [by intros [? ?] | lia]].
    destruct (BookDoc.sections bookDoc) as [sections|]; simpl;
      [|split; [by intros [? ?] | lia]].
    destruct (index <? 0) eqn:Hneg; simpl; [split; [by intros [? ?] | lia]|].
    destruct (index >=? Z.of_nat (length sections)) eqn:Hge;
      [split; [by intros [? ?] | lia]|].
    split; [lia|]. intros _.
    destruct (lookup_lt_is_Some_2 sections (Z.to_nat index)) as [section ->];
      [lia|]. by eexists. }
  split; [|split].
  - rewrite <- Hrange. unfold getChapterHTML.
    destruct (getChapter self index host) as [chapter|e].
    + split; intros _; by eexists.
    + split; by intros [? ?].
  - rewrite <- Hrange. unfold getChapterText.
    destruct (getChapter self index host) as [chapter|e].
    + split; intros _; by eexists.
    + split; by intros [? ?].
  - intros chapter Hget. unfold getChapterHTML, getChapterText. rewrite Hget.
    split; [done|]. split; [done|].
    unfold getChapter in Hget.
    destruct (getBookData (_bookKey self) host ≫= BookDataEntry.bookDoc)
      as [bookDoc|]; [|done].
    destruct (BookDoc.sections bookDoc) as [sections|]; [|done].
    destruct ((index <? 0) || (index >=? Z.of_nat (length sections))); [done|].
    destruct (sections !! Z.to_nat index); [|done].
    by injection Hget as <-.
Qed.

(** ** Chapter summaries *)

(** X16. Without entries in the table of contents, [getAllChapters] lists
    the sections: as many summaries as [getChapterCount ()] counts, the
    summary at position i has index i and word count 0, the section's id as
    its title (a generic label when the section has none), and
    [getChapter i] returns a chapter with the same href. *)
Theorem sections_are_summarised_without_a_toc (self : ReadestBookDataProvider)
    (host : Host) (bookDoc : BookDoc.t) :
  getBookData (_bookKey self) host ≫= BookDataEntry.bookDoc = Some bookDoc →
  BookDoc.toc bookDoc = None ∨ BookDoc.toc bookDoc = Some [] →
  let summaries := getAllChapters self host in
  Z.of_nat (length summaries) = getChapterCount self host
  ∧ ∀ (i : nat) summary, summaries !! i = Some summary →
      SDKChapterSummary.index summary = Z.of_nat i
      ∧ SDKChapterSummary.wordCount summary = 0
      ∧ ∃ section chapter,
          default [] (BookDoc.sections bookDoc) !! i = Some section
          ∧ SDKChapterSummary.title summary
            = default ("Section " +:+ JS.number_to_string (Z.of_nat i + 1))
                      (SectionItem.id section)
          ∧ getChapter self (Z.of_nat i) host = Returns chapter
          ∧ SDKChapter.href chapter = SDKChapterSummary.href summary.
Proof.
  intros Hdoc Htoc summaries.
  assert (summaries = sectionSummaries (default [] (BookDoc.sections bookDoc)))
    as ->.
  { unfold summaries, getAllChapters. rewrite Hdoc. by destruct Htoc as [-> | ->]. }
  split.
  { rewrite (getChapterCount_sections self host bookDoc Hdoc).
    unfold sectionSummaries. by rewrite length_imap. }
  intros i summary Hi. unfold sectionSummaries in Hi.
  rewrite list_lookup_imap in Hi.
  destruct (default [] (BookDoc.sections bookDoc) !! i) as [section|] eqn:Hsection;
    [|done].
  injection Hi as <-. split; [done|]. split; [done|].
  destruct (BookDoc.sections bookDoc) as [sections|] eqn:Hsections; [|done].
  simpl in Hsection.
  destruct (getChapter_in_range self host bookDoc sections (Z.of_nat i)
              Hdoc Hsections) as (section' & Hsection' & Hget).
  { apply lookup_lt_Some in Hsection. lia. }
  rewrite Nat2Z.id, Hsection in Hsection'. injection Hsection' as <-.
  exists section. eexists. split; [done|]. split; [done|]. split; [exact Hget|done].
Qed.

(** ** The table of contents *)

Lemma flattenTOCItem_eq (item : TOCItem.t) :
  flattenTOCItem item
  = item :: flattenTOC (default [] (TOCItem.subitems item)).
Proof.
  by destruct item as [id label href [subitems|]].
Qed.

Lemma TOCItem_tree_ind (P : TOCItem.t → Prop) :
  (∀ item, Forall P (default [] (TOCItem.subitems item)) → P item) →
  ∀ item, P item.
Proof.
  intros Hitem. fix IH 1. intros [id label href [subitems|]].
  - apply Hitem. simpl.
    induction subitems as [|sub rest IHrest]; [by apply Forall_nil|].
    apply Forall_cons. split; [apply IH | exact IHrest].
  - apply Hitem. by apply Forall_nil.
Qed.

Lemma elem_of_flattenTOC (x : TOCItem.t) (items : list TOCItem.t) :
  x ∈ flattenTOC items ↔ ∃ item, item ∈ items ∧ x ∈ flattenTOCItem item.
Proof.
  unfold flattenTOC. rewrite list_elem_of_In, in_flat_map.
  split; intros (item & Hitem & Hx); exists item;
    by rewrite ?list_elem_of_In in *.
Qed.

Lemma member_flattened (x : TOCItem.t) (items : list TOCItem.t) :
  TOCTreeMember x items → x ∈ flattenTOC items.
Proof.
  induction 1 as [items Hx | items parent Hparent _ IH];
    apply elem_of_flattenTOC.
  - exists x. split; [done|]. rewrite flattenTOCItem_eq. by left.
  - exists parent. split; [done|]. rewrite flattenTOCItem_eq. by right.
Qed.

Lemma flattened_item_member (item x : TOCItem.t) :
  x ∈ flattenTOCItem item →
  x = item ∨ TOCTreeMember x (default [] (TOCItem.subitems item)).
Proof.
  revert x. induction item as [item IH] using TOCItem_tree_ind. intros x Hx.
  rewrite flattenTOCItem_eq in Hx. apply elem_of_cons in Hx as [->|Hx]; [by left|].
  right. apply elem_of_flattenTOC in Hx as (sub & Hsub & Hx).
  rewrite Forall_forall in IH. destruct (IH sub Hsub x Hx) as [->|Hbelow].
  - by apply member_here.
  - by eapply member_below.
Qed.

Lemma flattened_member (x : TOCItem.t) (items : list TOCItem.t) :
  x ∈ flattenTOC items → TOCTreeMember x items.
Proof.
  intros Hx. apply elem_of_flattenTOC in Hx as (item & Hitem & Hx).
  destruct (flattened_item_member item x Hx) as [->|Hbelow].
  - by apply member_here.
  - by eapply member_below.
Qed.

(** X17. [flattenTOC] yields the items of the tree and nothing else: an
    item is in the flat array exactly when it is in the array given or
    somewhere below one of its items; the items of the array given keep
    their order in the flat array; and an array whose items have no
    subitems is returned as it is. *)
Theorem flattenTOC_lists_the_whole_tree (items : list TOCItem.t) :
  (∀ x, x ∈ flattenTOC items ↔ TOCTreeMember x items)
  ∧ items `sublist_of` flattenTOC items
  ∧ (Forall (λ item, default [] (TOCItem.subitems item) = []) items →
     flattenTOC items = items).
Proof.
  split; [|split].
  - intros x. split; [apply flattened_member | apply member_flattened].
  - unfold flattenTOC. induction items as [|item rest IH]; [done|].
    cbn [flat_map]. rewrite flattenTOCItem_eq. cbn [app].
    apply sublist_skip. by apply sublist_inserts_l.
  - unfold flattenTOC. induction 1 as [|item rest Hitem _ IH]; [done|].
    cbn [flat_map]. rewrite flattenTOCItem_eq, Hitem, IH. done.
Qed.

(** X18. With entries in the table of contents, [getAllChapters] summarises
    the table, not the sections: every item of the tree, at any depth, has a
    summary with its id, label and href and word count 0, every summary
    comes from such an item, and there are at least as many summaries as
    top-level entries. *)
Theorem toc_is_summarised_at_every_depth (self : ReadestBookDataProvider)
    (host : Host) (bookDoc : BookDoc.t) (toc : list TOCItem.t) :
  getBookData (_bookKey self) host ≫= BookDataEntry.bookDoc = Some bookDoc →
  BookDoc.toc bookDoc = Some toc →
  toc ≠ [] →
  let summaries := getAllChapters self host in
  let summarises (summary : SDKChapterSummary.t) (item : TOCItem.t) :=
    SDKChapterSummary.index summary = TOCItem.id item
    ∧ SDKChapterSummary.title summary = TOCItem.label item
    ∧ SDKChapterSummary.href summary = TOCItem.href item
    ∧ SDKChapterSummary.wordCount summary = 0 in
  (∀ item, TOCTreeMember item toc →
     ∃ summary, summary ∈ summaries ∧ summarises summary item)
  ∧ (∀ summary, summary ∈ summaries →
       ∃ item, TOCTreeMember item toc ∧ summarises summary item)
  ∧ (length toc ≤ length summaries)%nat.
Proof.
  intros Hdoc Htoc Hnonempty summaries summarises.
  assert (summaries = mapTOCToChapterSummaries (flattenTOC toc)) as ->.
  { unfold summaries, getAllChapters. rewrite Hdoc, Htoc. by destruct toc. }
  unfold mapTOCToChapterSummaries. split; [|split].
  - intros item Hitem. apply member_flattened in Hitem.
    exists {| SDKChapterSummary.index := TOCItem.id item;
              SDKChapterSummary.title := TOCItem.label item;
              SDKChapterSummary.href := TOCItem.href item;
              SDKChapterSummary.wordCount := 0 |}.
    split; [|done].
    by apply (list_elem_of_fmap_2
                (λ item, {| SDKChapterSummary.index := TOCItem.id item;
                            SDKChapterSummary.title := TOCItem.label item;
                            SDKChapterSummary.href := TOCItem.href item;
                            SDKChapterSummary.wordCount := 0 |})).
  - intros summary Hsummary.
    apply list_elem_of_fmap in Hsummary as (item & -> & Hitem).
    exists item. split; [by apply flattened_member | done].
  - rewrite length_fmap. apply sublist_length.
    unfold flattenTOC. clear. induction toc as [|item rest IH]; [done|].
    cbn [flat_map]. rewrite flattenTOCItem_eq. cbn [app].
    apply sublist_skip. by apply sublist_inserts_l.
Qed.

(** X19. The title of a chapter comes from the tree of the table of
    contents: it is the label of an item of the tree, at any depth, whose id
    is the chapter's index, and the generic label 'Section index+1' when the
    tree has no such item or the document has no table of contents. *)
Theorem chapter_title_comes_from_the_toc_tree (self : ReadestBookDataProvider)
    (index : Z) (host : Host) (bookDoc : BookDoc.t) (chapter : SDKChapter.t) :
  getBookData (_bookKey self) host ≫= BookDataEntry.bookDoc = Some bookDoc →
  getChapter self index host = Returns chapter →
  let generic := "Section " +:+ JS.number_to_string (index + 1) in
  match BookDoc.toc bookDoc with
  | None => SDKChapter.title chapter = generic
  | Some toc =>
      (∃ item, TOCTreeMember item toc ∧ TOCItem.id item = index
               ∧ SDKChapter.title chapter = TOCItem.label item)
      ∨ ((∀ item, TOCTreeMember item toc → TOCItem.id item ≠ index)
         ∧ SDKChapter.title chapter = generic)
  end.
Proof.
  intros Hdoc Hget generic.
  assert (SDKChapter.title chapter = _findTitleForSection index bookDoc) as ->.
  { unfold getChapter in Hget. rewrite Hdoc in Hget.
    destruct (BookDoc.sections bookDoc) as [sections|]; [|done].
    destruct ((index <? 0) || (index >=? Z.of_nat (length sections))); [done|].
    destruct (sections !! Z.to_nat index); [|done].
    by injection Hget as <-. }
  unfold _findTitleForSection.
  destruct (BookDoc.toc bookDoc) as [toc|]; [|done].
  destruct (list_find (λ t, TOCItem.id t = index) (flattenTOC toc))
    as [[i item]|] eqn:Hfind.
  - left. apply list_find_Some in Hfind as (Hi & Hid & _).
    exists item. split; [|done].
    apply flattened_member. by eapply list_elem_of_lookup_2.
  - right. split; [|done]. intros item Hitem.
    apply list_find_None in Hfind. rewrite Forall_forall in Hfind.
    apply Hfind. by apply member_flattened.
Qed.

End Provider.

Arguments SDKBook : clear implicits.

(** The bounds on Book A, which has two sections. *)
Lemma chapter_bounds_witness :
  let count := getChapterCount exampleApi exampleHost in
  getChapter exampleApi (-1) exampleHost
  = Throws (ChapterIndexOutOfRange (-1) (count - 1))
  ∧ getChapter exampleApi count exampleHost
    = Throws (ChapterIndexOutOfRange count (count - 1))
  ∧ (∃ chapter, getChapter exampleApi (count - 1) exampleHost = Returns chapter
                ∧ SDKChapter.index chapter = count - 1)
  ∧ ∀ index, outOfRange (getChapter exampleApi index exampleHost)
             ↔ index < 0 ∨ count ≤ index.
Proof.
  refine (chapter_bounds exampleApi exampleHost
            {| BookDoc.sections :=
                 Some [exampleSection "a1" "first words";
                       exampleSection "a2" "some more words here"];
               BookDoc.toc := None |}
            [exampleSection "a1" "first words";
             exampleSection "a2" "some more words here"] _ _ _).
  - vm_compute. reflexivity.
  - reflexivity.
  - discriminate.
Defined.

(** C1, on the code.  The capability is created while book A is active; the
    user then switches to book B.  A read through the capability still
    answers from book A, although the accessor, asked at that moment, names
    book B, and a capability created at that moment answers from book B. *)
Theorem book_capability_reads_the_construction_key :
  let api := createBookAPI hostProvider exampleHost in
  let later := switchBook (Some "hashB-1") exampleHost in
  _bookKeyAccessor hostProvider later = Some "hashB-1"
  ∧ sdk_id <$> getCurrentBook (λ _, tt) api later = Some "hashA"
  ∧ getChapterCount api later = 2
  ∧ sdk_id <$> getCurrentBook (λ _, tt) (createBookAPI hostProvider later) later
    = Some "hashB"
  ∧ getChapterCount (createBookAPI hostProvider later) later = 1.
Proof. vm_compute. repeat split; reflexivity. Qed.

(** The key of a book capability is the accessor's answer at the time
    [createBookAPI] ran, whatever the host looks like when it is used. *)
Lemma createBookAPI_fixes_key {M : Type} (f : ReadestBook.t → M)
    (provider : ReadestHostAPIProvider) (before after : Host) :
  getCurrentBook f (createBookAPI provider before) after
  = match getBookData (default "" (_bookKeyAccessor provider before)) after
            ≫= BookDataEntry.book with
    | None => None
    | Some book => Some (mapReadestBookToSDK f book)
    end.
Proof. reflexivity. Qed.

(** Book A has no table of contents: its two sections are summarised. *)
Lemma sections_are_summarised_without_a_toc_witness :
  Z.of_nat (length (getAllChapters exampleApi exampleHost))
  = getChapterCount exampleApi exampleHost.
Proof.
  refine (proj1 (sections_are_summarised_without_a_toc exampleApi exampleHost
                   {| BookDoc.sections :=
                        Some [exampleSection "a1" "first words";
                              exampleSection "a2" "some more words here"];
                      BookDoc.toc := None |} _ _)).
  - vm_compute. reflexivity.
  - left. reflexivity.
Defined.

(** The nested entry of the example table has a summary. *)
Lemma toc_is_summarised_at_every_depth_witness :
  (length exampleToc ≤ length (getAllChapters exampleApi exampleTocHost))%nat.
Proof.
  refine (proj2 (proj2 (toc_is_summarised_at_every_depth exampleApi
                          exampleTocHost exampleTocDoc exampleToc _ _ _))).
  - vm_compute. reflexivity.
  - reflexivity.
  - discriminate.
Defined.

(** Chapter 1 of the example takes its title from the nested entry. *)
Lemma chapter_title_comes_from_the_toc_tree_witness :
  (∃ item, TOCTreeMember item exampleToc ∧ TOCItem.id item = 1
           ∧ SDKChapter.title
               (_loadChapter 1 (exampleSection "a2" "some more words here")
                  exampleTocDoc)
             = TOCItem.label item)
  ∨ ((∀ item, TOCTreeMember item exampleToc → TOCItem.id item ≠ 1)
     ∧ SDKChapter.title
         (_loadChapter 1 (exampleSection "a2" "some more words here")
            exampleTocDoc)
       = "Section " +:+ JS.number_to_string (1 + 1)).
Proof.
  refine (chapter_title_comes_from_the_toc_tree exampleApi 1 exampleTocHost
            exampleTocDoc
            (_loadChapter 1 (exampleSection "a2" "some more words here")
               exampleTocDoc) _ _).
  - vm_compute. reflexivity.
  - vm_compute. reflexivity.
Defined.

End BookData.

(* ====================================================================== *)
(** * services/plugins/providers/TauriProcessSpawner.ts *)
(* ====================================================================== *)

Module ProcessSpawner.

(** A handler is a callback of the plugin; what matters of it is which one it
    is and what it was called with. *)
Definition Handler : Type := nat.

(** The four handler arrays of a spawned process. *)
Inductive Channel := ExitChannel | ErrorChannel | StdoutChannel | StderrChannel.

#[export] Instance Channel_eq_dec : EqDecision Channel.
Proof. solve_decision. Defined.

(** What a handler is called with: the exit code ([number | null]), an
    [Error] with its message, or the buffer made of a line of output. *)
Inductive Payload :=
| ExitCode (code : option Z)
| ErrorValue (msg : string)
| BufferLike (data : string).

#[export] Instance Payload_eq_dec : EqDecision Payload.
Proof. solve_decision. Defined.

(** One call of a handler. *)
Record Call := {
  call_channel : Channel;
  call_handler : Handler;
  call_payload : Payload;
}.

(** The closure state of one [spawn] call, with what has been observed of it:
    the calls made to handlers, in order, and the children [child.kill()] was
    invoked on.  [childKill] holds the pid of the child it kills once the
    spawn has resolved. *)
Record SpawnedProcess := {
  command : string;
  args : list string;
  exitHandlers : list Handler;
  errorHandlers : list Handler;
  stdoutHandlers : list Handler;
  stderrHandlers : list Handler;
  killed : bool;
  childPid : option Z;
  childKill : option Z;
  calls : list Call;
  killedChildren : list Z;
}.

Definition handlersOf (ch : Channel) (p : SpawnedProcess) : list Handler :=
  match ch with
  | ExitChannel => exitHandlers p
  | ErrorChannel => errorHandlers p
  | StdoutChannel => stdoutHandlers p
  | StderrChannel => stderrHandlers p
  end.

(** [handlers.push(handler)] on one of the four arrays. *)
Definition push (ch : Channel) (handler : Handler) (p : SpawnedProcess)
    : SpawnedProcess :=
  {| command := command p; args := args p;
     exitHandlers :=
       if decide (ch = ExitChannel) then exitHandlers p ++ [handler]
       else exitHandlers p;
     errorHandlers :=
       if decide (ch = ErrorChannel) then errorHandlers p ++ [handler]
       else errorHandlers p;
     stdoutHandlers :=
       if decide (ch = StdoutChannel) then stdoutHandlers p ++ [handler]
       else stdoutHandlers p;
     stderrHandlers :=
       if decide (ch = StderrChannel) then stderrHandlers p ++ [handler]
       else stderrHandlers p;
     killed := killed p; childPid := childPid p; childKill := childKill p;
     calls := calls p; killedChildren := killedChildren p |}.

(** [for (const handler of handlers) handler(payload)]. *)
Definition callAll (ch : Channel) (payload : Payload) (p : SpawnedProcess)
    : SpawnedProcess :=
  {| command := command p; args := args p;
     exitHandlers := exitHandlers p; errorHandlers := errorHandlers p;
     stdoutHandlers := stdoutHandlers p; stderrHandlers := stderrHandlers p;
     killed := killed p; childPid := childPid p; childKill := childKill p;
     calls :=
       calls p
       ++ ((λ handler, {| call_channel := ch; call_handler := handler;
                          call_payload := payload |}) <$> handlersOf ch p);
     killedChildren := killedChildren p |}.

(** [childKill()], that is [void child.kill()]. *)
Definition invokeChildKill (pid : Z) (p : SpawnedProcess) : SpawnedProcess :=
  {| command := command p; args := args p;
     exitHandlers := exitHandlers p; errorHandlers := errorHandlers p;
     stdoutHandlers := stdoutHandlers p; stderrHandlers := stderrHandlers p;
     killed := killed p; childPid := childPid p; childKill := childKill p;
     calls := calls p;
     killedChildren := killedChildren p ++ [pid] |}.

(** ** The handle: [spawn] and the methods of the object it returns *)

(** [spawn(command, args)] returns at once: empty handler arrays, no pid. *)
Definition spawn (cmd : string) (arguments : list string) : SpawnedProcess :=
  {| command := cmd; args := arguments;
     exitHandlers := []; errorHandlers := [];
     stdoutHandlers := []; stderrHandlers := [];
     killed := false; childPid := None; childKill := None;
     calls := []; killedChildren := [] |}.

Definition pid (p : SpawnedProcess) : option Z := childPid p.

Definition kill (_signal : option string) (p : SpawnedProcess)
    : SpawnedProcess * bool :=
  let p1 :=
    {| command := command p; args := args p;
       exitHandlers := exitHandlers p; errorHandlers := errorHandlers p;
       stdoutHandlers := stdoutHandlers p; stderrHandlers := stderrHandlers p;
       killed := true; childPid := childPid p; childKill := childKill p;
       calls := calls p; killedChildren := killedChildren p |} in
  match childKill p1 with
  | Some child => (invokeChildKill child p1, true)
  | None => (p1, true)
  end.

Definition on (event : string) (handler : Handler) (p : SpawnedProcess)
    : SpawnedProcess :=
  if decide (event = "exit") then push ExitChannel handler p
  else if decide (event = "error") then push ErrorChannel handler p
  else p.

Definition stdout_on (_event : string) (handler : Handler) (p : SpawnedProcess)
    : SpawnedProcess :=
  push StdoutChannel handler p.

Definition stderr_on (_event : string) (handler : Handler) (p : SpawnedProcess)
    : SpawnedProcess :=
  push StderrChannel handler p.

(** ** The asynchronous side: how [spawnPromise] settles, and the listeners
    it put on the command *)

(** [await cmd.spawn()] resolved with a child. *)
Definition spawnResolved (child : Z) (p : SpawnedProcess) : SpawnedProcess :=
  let p1 :=
    {| command := command p; args := args p;
       exitHandlers := exitHandlers p; errorHandlers := errorHandlers p;
       stdoutHandlers := stdoutHandlers p; stderrHandlers := stderrHandlers p;
       killed := killed p; childPid := Some child; childKill := Some child;
       calls := calls p; killedChildren := killedChildren p |} in
  match killed p1, childKill p1 with
  | true, Some c => invokeChildKill c p1
  | _, _ => p1
  end.

(** The import or the spawn rejected: the [catch] block. *)
Definition spawnRejected (msg : string) (p : SpawnedProcess) : SpawnedProcess :=
  callAll ErrorChannel (ErrorValue msg) p.

(** What the underlying command emits. *)
Inductive ProcessEvent :=
| Close (code : option Z)
| ErrorEvent (errorMsg : string)
| StdoutData (line : string)
| StderrData (line : string).

Definition channelOf (e : ProcessEvent) : Channel :=
  match e with
  | Close _ => ExitChannel
  | ErrorEvent _ => ErrorChannel
  | StdoutData _ => StdoutChannel
  | StderrData _ => StderrChannel
  end.

(** What the listener of the event hands to the handlers. *)
Definition payloadOf (e : ProcessEvent) : Payload :=
  match e with
  | Close code => ExitCode code
  | ErrorEvent errorMsg => ErrorValue errorMsg
  | StdoutData line => BufferLike line
  | StderrData line => BufferLike line
  end.

(** The four listeners: [cmd.on('close')], [cmd.on('error')],
    [cmd.stdout.on('data')], [cmd.stderr.on('data')]. *)
Definition emit (e : ProcessEvent) (p : SpawnedProcess) : SpawnedProcess :=
  callAll (channelOf e) (payloadOf e) p.

(** ** Runs *)

(** What the holder of the handle can do with it. *)
Inductive HandleOp :=
| Kill (signal : option string)
| On (event : string) (handler : Handler)
| StdoutOn (event : string) (handler : Handler)
| StderrOn (event : string) (handler : Handler).

Definition perform (op : HandleOp) (p : SpawnedProcess) : SpawnedProcess :=
  match op with
  | Kill signal => (kill signal p).1
  | On event handler => on event handler p
  | StdoutOn event handler => stdout_on event handler p
  | StderrOn event handler => stderr_on event handler p
  end.

(** Operations, and events, one after the other. *)
Definition performAll (ops : list HandleOp) (p : SpawnedProcess) : SpawnedProcess :=
  foldl (λ q op, perform op q) p ops.

Definition emitAll (events : list ProcessEvent) (p : SpawnedProcess)
    : SpawnedProcess :=
  foldl (λ q e, emit e q) p events.

(** The payloads one handler of one channel was called with, in order. *)
Definition callsTo (ch : Channel) (handler : Handler) (p : SpawnedProcess)
    : list Payload :=
  call_payload
    <$> filter (λ c, call_channel c = ch ∧ call_handler c = handler) (calls p).

(** The payloads of the events of one channel, in order. *)
Definition payloadsOn (ch : Channel) (events : list ProcessEvent) : list Payload :=
  payloadOf <$> filter (λ e, channelOf e = ch) events.

(** How many times a handler stands in the array of a channel: once for each
    time it was registered there. *)
Definition registrations (ch : Channel) (handler : Handler) (p : SpawnedProcess)
    : nat :=
  length (filter (λ h, h = handler) (handlersOf ch p)).

(** ** Whole runs of the bridge *)

(** What can happen to a spawned process, one thing at a time: the holder of
    the handle does something with it, the spawn settles, the command emits
    an event. *)
Inductive Step :=
| Handle (op : HandleOp)
| Resolve (child : Z)
| Reject (msg : string)
| Emit (e : ProcessEvent).

Definition step (st : Step) (p : SpawnedProcess) : SpawnedProcess :=
  match st with
  | Handle op => perform op p
  | Resolve child => spawnResolved child p
  | Reject msg => spawnRejected msg p
  | Emit e => emit e p
  end.

Definition run (trace : list Step) (p : SpawnedProcess) : SpawnedProcess :=
  foldl (λ q st, step st q) p trace.

(** Whether an operation, or a step, is a call of [kill()]. *)
Definition requestsKill (op : HandleOp) : bool :=
  match op with
  | Kill _ => true
  | _ => false
  end.

Definition isKill (st : Step) : Prop :=
  match st with
  | Handle op => requestsKill op = true
  | _ => False
  end.

(** The number of [kill()] calls among handle operations. *)
Definition killRequests (ops : list HandleOp) : nat :=
  length (filter (λ op, requestsKill op = true) ops).

(** The registration of a handler on a channel, as the handle offers it. *)
Definition registerOn (ch : Channel) (handler : Handler) : HandleOp :=
  match ch with
  | ExitChannel => On "exit" handler
  | ErrorChannel => On "error" handler
  | StdoutChannel => StdoutOn "data" handler
  | StderrChannel => StderrOn "data" handler
  end.

(** The handler an operation of the handle registers on a channel, if it
    registers one there: [on] files a handler under 'exit' or 'error' and
    drops it for any other event name, [stdout.on] and [stderr.on] file it
    whatever the event name is. *)
Definition registeredBy (ch : Channel) (op : HandleOp) : option Handler :=
  match op, ch with
  | On event handler, ExitChannel =>
      if decide (event = "exit") then Some handler else None
  | On event handler, ErrorChannel =>
      if decide (event = "error") then Some handler else None
  | StdoutOn _ handler, StdoutChannel => Some handler
  | StderrOn _ handler, StderrChannel => Some handler
  | _, _ => None
  end.

(** The handlers a sequence of operations registers on a channel, in order,
    and how many times one handler is among them. *)
Definition registeredOn (ch : Channel) (ops : list HandleOp) : list Handler :=
  omap (registeredBy ch) ops.

Definition timesRegistered (ch : Channel) (handler : Handler)
    (ops : list HandleOp) : nat :=
  length (filter (λ h, h = handler) (registeredOn ch ops)).

(** ** Before the spawn resolves *)

(** The spawn has not settled: no pid, nothing to kill yet, no handler
    called. *)
Definition pending (p : SpawnedProcess) : Prop :=
  childPid p = None ∧ childKill p = None ∧ calls p = [] ∧ killedChildren p = [].

Lemma pending_spawn cmd arguments : pending (spawn cmd arguments).
Proof. by repeat split. Qed.

Lemma pending_perform op p : pending p → pending (perform op p).
Proof.
  intros (Hpid & Hkill & Hcalls & Hkilled).
  destruct op as [signal|event handler|event handler|event handler]; simpl.
  - unfold kill. simpl. rewrite Hkill. by repeat split.
  - unfold on. repeat case_decide; by repeat split.
  - by repeat split.
  - by repeat split.
Qed.

Lemma pending_performAll ops p : pending p → pending (performAll ops p).
Proof.
  revert p. induction ops as [|op ops IH]; intros p Hp; [done|].
  apply IH. by apply pending_perform.
Qed.

Lemma killed_perform op p : killed p = true → killed (perform op p) = true.
Proof.
  intros Hk.
  destruct op as [signal|event handler|event handler|event handler]; simpl.
  - unfold kill. simpl. by destruct (childKill p).
  - unfold on. by repeat case_decide.
  - done.
  - done.
Qed.

Lemma killed_performAll ops p : killed p = true → killed (performAll ops p) = true.
Proof.
  revert p. induction ops as [|op ops IH]; intros p Hp; [done|].
  apply IH. by apply killed_perform.
Qed.

(** C4. [kill()] on a handle whose spawn has not resolved, whatever was done
    with the handle before and whatever is done with it afterwards until the
    spawn resolves: it answers [true] and records the request without a
    process to act on; when the spawn resolves with a child, [child.kill()]
    is invoked on that child. *)
Theorem kill_before_resolution_is_applied (cmd : string) (arguments : list string)
    (before after : list HandleOp) (signal : option string) (child : Z) :
  let requested := performAll before (spawn cmd arguments) in
  let answer := kill signal requested in
  let resolved := spawnResolved child (performAll after answer.1) in
  pid requested = None
  ∧ answer.2 = true
  ∧ killed answer.1 = true
  ∧ killedChildren answer.1 = []
  ∧ pid resolved = Some child
  ∧ killedChildren resolved = [child].
Proof.
  intros requested answer resolved.
  pose proof (pending_performAll before _ (pending_spawn cmd arguments))
    as Hrequested.
  fold requested in Hrequested.
  pose proof (pending_perform (Kill signal) _ Hrequested) as Hanswer.
  change (perform (Kill signal) requested) with answer.1 in Hanswer.
  assert (killed answer.1 = true) as Hflag.
  { unfold answer, kill. simpl. by destruct (childKill requested). }
  pose proof (pending_performAll after _ Hanswer) as (_ & _ & _ & Hnone).
  pose proof (killed_performAll after _ Hflag) as Hstill.
  destruct Hrequested as (Hpid & Hkill & _ & _).
  destruct Hanswer as (_ & _ & _ & Hnokill).
  repeat split; try done.
  - unfold answer, kill. simpl. by rewrite Hkill.
  - unfold resolved, spawnResolved. simpl. by rewrite Hstill.
  - unfold resolved, spawnResolved. simpl. rewrite Hstill. simpl. by rewrite Hnone.
Qed.

(** ** Delivery *)

Lemma handlersOf_callAll ch ch' payload p :
  handlersOf ch (callAll ch' payload p) = handlersOf ch p.
Proof. by destruct ch. Qed.

Lemma handlersOf_spawnResolved ch child p :
  handlersOf ch (spawnResolved child p) = handlersOf ch p.
Proof. unfold spawnResolved. simpl. destruct (killed p), ch; done. Qed.

Lemma calls_spawnResolved child p : calls (spawnResolved child p) = calls p.
Proof. unfold spawnResolved. simpl. by destruct (killed p). Qed.

(** One event reaches a handler of its channel once for each registration,
    and no handler of another channel. *)
Lemma callsTo_emit ch handler e p :
  callsTo ch handler (emit e p)
  = callsTo ch handler p
    ++ (if decide (channelOf e = ch)
        then replicate (registrations ch handler p) (payloadOf e) else []).
Proof.
  unfold callsTo, emit, callAll, registrations. simpl.
  rewrite filter_app, fmap_app. f_equal.
  case_decide as Hch.
  - rewrite Hch. induction (handlersOf ch p) as [|h hs IH]; [done|].
    rewrite fmap_cons, (filter_cons _ h hs), filter_cons. simpl.
    destruct (decide (h = handler)) as [->|Hne].
    + rewrite decide_True by done. rewrite fmap_cons. simpl. by rewrite IH.
    + rewrite decide_False by (intros [_ ?]; done). exact IH.
  - induction (handlersOf (channelOf e) p) as [|h hs IH]; [done|].
    rewrite fmap_cons, filter_cons. simpl.
    rewrite decide_False by (intros [? _]; done). exact IH.
Qed.

Lemma registrations_emit ch handler e p :
  registrations ch handler (emit e p) = registrations ch handler p.
Proof. unfold registrations, emit. by rewrite handlersOf_callAll. Qed.

Lemma callsTo_emitAll ch handler events p :
  callsTo ch handler (emitAll events p)
  = callsTo ch handler p
    ++ flat_map (replicate (registrations ch handler p)) (payloadsOn ch events).
Proof.
  revert p. induction events as [|e events IH]; intros p.
  - simpl. by rewrite app_nil_r.
  - simpl. rewrite IH, callsTo_emit, registrations_emit.
    rewrite <- (assoc_L (++)). f_equal.
    unfold payloadsOn. rewrite filter_cons. by case_decide.
Qed.

Lemma flat_map_replicate_once {A} (l : list A) :
  flat_map (replicate 1) l = l.
Proof. induction l as [|x l IH]; [done|]. simpl. f_equal. exact IH. Qed.

(** What the handle's methods do to the handler arrays: an operation appends
    the handler it registers to the array of its channel and leaves the
    other arrays alone. *)
Lemma handlersOf_perform ch op p :
  handlersOf ch (perform op p)
  = handlersOf ch p ++ option_list (registeredBy ch op).
Proof.
  destruct op as [signal|event handler|event handler|event handler]; simpl.
  - unfold kill. simpl. destruct (childKill p), ch; simpl; by rewrite app_nil_r.
  - unfold on.
    destruct ch; simpl; repeat case_decide; subst; simpl;
      rewrite ?app_nil_r; done.
  - destruct ch; simpl; rewrite ?app_nil_r; done.
  - destruct ch; simpl; rewrite ?app_nil_r; done.
Qed.

Lemma handlersOf_performAll ch ops p :
  handlersOf ch (performAll ops p) = handlersOf ch p ++ registeredOn ch ops.
Proof.
  revert p. induction ops as [|op ops IH]; intros p.
  - simpl. by rewrite app_nil_r.
  - simpl. rewrite IH, handlersOf_perform, <- (assoc_L (++)). f_equal.
    unfold registeredOn. simpl. by destruct (registeredBy ch op).
Qed.

Lemma registrations_performAll ch handler ops cmd arguments :
  registrations ch handler (performAll ops (spawn cmd arguments))
  = timesRegistered ch handler ops.
Proof.
  unfold registrations, timesRegistered. rewrite handlersOf_performAll.
  by destruct ch.
Qed.

Lemma timesRegistered_registerOn ch handler ops :
  registerOn ch handler ∈ ops → (0 < timesRegistered ch handler ops)%nat.
Proof.
  intros Hin. unfold timesRegistered.
  assert (handler ∈ filter (λ h, h = handler) (registeredOn ch ops)) as Hh.
  { apply list_elem_of_filter. split; [done|].
    apply list_elem_of_omap. exists (registerOn ch handler).
    split; [done|]. by destruct ch. }
  destruct (filter (λ h, h = handler) (registeredOn ch ops));
    [by apply elem_of_nil in Hh | simpl; lia].
Qed.

(** C5. The holder of the handle runs any operations on it before the spawn
    resolves ([on], [stdout.on], [stderr.on], [kill]); the command then
    emits events.  A handler is called with the payload of every event of
    its channel, in the order of emission, as many times per event as the
    operations registered it there; an operation [on]/[stdout.on]/
    [stderr.on] for the handler among them registers it at least once, and
    registered once it gets every event exactly once.  For [on('exit', h)]
    right after [spawn()] and a process whose only close has code 0: one
    call of [h], with code 0. *)
Theorem early_handler_receives_every_event (cmd : string) (arguments : list string)
    (ops : list HandleOp) (child : Z) (events : list ProcessEvent)
    (ch : Channel) (handler : Handler) :
  let registered := performAll ops (spawn cmd arguments) in
  let final := emitAll events (spawnResolved child registered) in
  callsTo ch handler final
  = flat_map (replicate (timesRegistered ch handler ops)) (payloadsOn ch events)
  ∧ (registerOn ch handler ∈ ops → (0 < timesRegistered ch handler ops)%nat)
  ∧ (timesRegistered ch handler ops = 1%nat →
     callsTo ch handler final = payloadsOn ch events)
  ∧ (payloadsOn ExitChannel events = [ExitCode (Some 0)] →
     callsTo ExitChannel handler
       (emitAll events
          (spawnResolved child
             (perform (On "exit" handler) (spawn cmd arguments))))
     = [ExitCode (Some 0)]).
Proof.
  intros registered final.
  assert (∀ ops' ch',
            callsTo ch' handler
              (emitAll events
                 (spawnResolved child (performAll ops' (spawn cmd arguments))))
            = flat_map (replicate (timesRegistered ch' handler ops'))
                (payloadsOn ch' events)) as Hall.
  { intros ops' ch'. rewrite callsTo_emitAll.
    rewrite <- (registrations_performAll ch' handler ops' cmd arguments).
    unfold registrations. rewrite handlersOf_spawnResolved.
    unfold callsTo at 1. rewrite calls_spawnResolved.
    by destruct (pending_performAll ops' _ (pending_spawn cmd arguments))
      as (_ & _ & -> & _). }
  split; [apply Hall|].
  split; [apply timesRegistered_registerOn|].
  split.
  - intros Honce. unfold final, registered.
    by rewrite Hall, Honce, flat_map_replicate_once.
  - intros Hzero.
    change (perform (On "exit" handler) (spawn cmd arguments))
      with (performAll [On "exit" handler] (spawn cmd arguments)).
    rewrite Hall, Hzero.
    unfold timesRegistered, registeredOn. simpl.
    by rewrite filter_cons_True.
Qed.

(** The scenario of C5: [onExit] right after [spawn], an exit with code 0
    after some output. *)
Lemma early_handler_receives_every_event_witness :
  callsTo ExitChannel 7%nat
    (emitAll [StdoutData "ready"; Close (Some 0)]
       (spawnResolved 4242
          (performAll [On "exit" 7%nat; StdoutOn "data" 8%nat]
             (spawn "sidecar" ["--serve"]))))
  = [ExitCode (Some 0)].
Proof.
  refine (proj1 (proj2 (proj2
            (early_handler_receives_every_event "sidecar" ["--serve"]
               [On "exit" 7%nat; StdoutOn "data" 8%nat] 4242
               [StdoutData "ready"; Close (Some 0)] ExitChannel 7%nat)))
            _).
  vm_compute. reflexivity.
Defined.

(** ** Kill requests over whole runs *)

Lemma quiet_step st p :
  ¬ isKill st →
  killed p = false ∧ killedChildren p = [] →
  killed (step st p) = false ∧ killedChildren (step st p) = [].
Proof.
  intros Hnokill [Hflag Hnone].
  destruct st as [[signal|event handler|event handler|event handler]|child|msg|e];
    simpl in *; try done.
  - unfold on. by repeat case_decide.
  - unfold spawnResolved. simpl. by rewrite Hflag.
Qed.

(** X20. A process is never killed behind the caller's back: in a run of any
    length made of handler registrations, the spawn settling and events of
    the command, with no call of [kill()], [child.kill()] is never invoked
    and the kill flag stays off. *)
Theorem no_kill_without_request (cmd : string) (arguments : list string)
    (trace : list Step) :
  Forall (λ st, ¬ isKill st) trace →
  let final := run trace (spawn cmd arguments) in
  killed final = false ∧ killedChildren final = [].
Proof.
  intros Hquiet final. subst final.
  assert (∀ p, killed p = false ∧ killedChildren p = [] →
               killed (run trace p) = false ∧ killedChildren (run trace p) = [])
    as Hkeep.
  { induction Hquiet as [|st trace Hst _ IH]; intros p Hp; [done|].
    simpl. apply IH. by apply quiet_step. }
  by apply Hkeep.
Qed.

Lemma childKill_perform op p child :
  childKill p = Some child →
  childKill (perform op p) = Some child
  ∧ killedChildren (perform op p)
    = killedChildren p ++ replicate (killRequests [op]) child.
Proof.
  intros Hchild.
  destruct op as [signal|event handler|event handler|event handler]; simpl.
  - unfold kill. simpl. by rewrite Hchild.
  - unfold on. repeat case_decide; simpl; by rewrite app_nil_r.
  - by rewrite app_nil_r.
  - by rewrite app_nil_r.
Qed.

Lemma childKill_spawnResolved child p :
  childKill (spawnResolved child p) = Some child.
Proof. unfold spawnResolved. simpl. by destruct (killed p). Qed.

(** X21. Once the spawn has resolved, every call of [kill()] invokes
    [child.kill()] on the child again: after any handle operations that
    contain k calls of [kill()], the child has been sent k more kills than it
    had at resolution. *)
Theorem kill_after_resolution_reaches_the_child_each_time
    (cmd : string) (arguments : list string)
    (before after : list HandleOp) (child : Z) :
  let resolved := spawnResolved child (performAll before (spawn cmd arguments)) in
  killedChildren (performAll after resolved)
  = killedChildren resolved ++ replicate (killRequests after) child.
Proof.
  intros resolved.
  assert (∀ p, childKill p = Some child →
            killedChildren (performAll after p)
            = killedChildren p ++ replicate (killRequests after) child) as Hrun.
  { induction after as [|op after IH]; intros p Hp.
    - simpl. by rewrite app_nil_r.
    - simpl. destruct (childKill_perform op p child Hp) as [Hkeep Hgrow].
      rewrite (IH _ Hkeep), Hgrow, <- (assoc_L (++)). f_equal.
      unfold killRequests. rewrite filter_cons.
      destruct op; simpl; by rewrite <- ?replicate_add. }
  apply Hrun. apply childKill_spawnResolved.
Qed.

(** ** A spawn that fails *)

Lemma calls_perform op p : calls (perform op p) = calls p.
Proof.
  destruct op as [signal|event handler|event handler|event handler]; simpl;
    try done.
  - unfold kill. simpl. by destruct (childKill p).
  - unfold on. by repeat case_decide.
Qed.

Lemma calls_performAll ops p : calls (performAll ops p) = calls p.
Proof.
  revert p. induction ops as [|op ops IH]; intros p; [done|].
  simpl. by rewrite IH, calls_perform.
Qed.

(** The spawn has settled without a child. *)
Definition childless (p : SpawnedProcess) : Prop :=
  childPid p = None ∧ childKill p = None ∧ killedChildren p = [].

Lemma childless_perform op p : childless p → childless (perform op p).
Proof.
  intros (Hpid & Hkill & Hkilled).
  destruct op as [signal|event handler|event handler|event handler]; simpl.
  - unfold kill. simpl. rewrite Hkill. by repeat split.
  - unfold on. repeat case_decide; by repeat split.
  - by repeat split.
  - by repeat split.
Qed.

Lemma childless_performAll ops p : childless p → childless (performAll ops p).
Proof.
  revert p. induction ops as [|op ops IH]; intros p Hp; [done|].
  apply IH. by apply childless_perform.
Qed.

(** X22. When the spawn fails, the handlers that [on('error', h)] has
    registered by then are each called once with the error, in registration
    order, and no other handler is called: not one registered for 'exit',
    for another event name, or on stdout or stderr.  The handle stays
    without a pid for good; [kill()] on it still answers [true] and reaches
    no process; and a handler registered after the failure is never told
    about it. *)
Theorem spawn_failure_reaches_the_error_handlers (cmd : string)
    (arguments : list string) (before after : list HandleOp)
    (msg : string) (signal : option string) :
  let registered := performAll before (spawn cmd arguments) in
  let failed := spawnRejected msg registered in
  let later := performAll after failed in
  calls failed
  = (λ handler, {| call_channel := ErrorChannel; call_handler := handler;
                   call_payload := ErrorValue msg |})
      <$> registeredOn ErrorChannel before
  ∧ (∀ handler, On "error" handler ∈ before →
       {| call_channel := ErrorChannel; call_handler := handler;
          call_payload := ErrorValue msg |} ∈ calls failed)
  ∧ calls later = calls failed
  ∧ pid later = None
  ∧ (kill signal later).2 = true
  ∧ killedChildren (kill signal later).1 = [].
Proof.
  intros registered failed later.
  destruct (pending_performAll before _ (pending_spawn cmd arguments))
    as (Hpid & Hkill & Hcalls & Hkilled).
  fold registered in Hpid, Hkill, Hcalls, Hkilled.
  assert (childless failed) as Hfailed by by repeat split.
  pose proof (childless_performAll after _ Hfailed) as Hlater.
  fold later in Hlater.
  pose proof (childless_perform (Kill signal) _ Hlater) as (_ & _ & Hnone).
  destruct Hlater as (Hpid' & _ & _).
  assert (calls failed
          = (λ handler, {| call_channel := ErrorChannel; call_handler := handler;
                           call_payload := ErrorValue msg |})
              <$> registeredOn ErrorChannel before) as Hcalled.
  { unfold failed, spawnRejected, callAll. cbn [calls]. rewrite Hcalls.
    unfold registered.
    by rewrite (handlersOf_performAll ErrorChannel before (spawn cmd arguments)). }
  split; [exact Hcalled|]. split; [|split; [|split; [|split]]].
  - intros handler Hin. rewrite Hcalled.
    apply (list_elem_of_fmap_2
             (λ handler, {| call_channel := ErrorChannel; call_handler := handler;
                            call_payload := ErrorValue msg |})).
    apply list_elem_of_omap. by exists (On "error" handler).
  - unfold later. by rewrite calls_performAll.
  - exact Hpid'.
  - unfold kill. simpl. by destruct (childKill later).
  - exact Hnone.
Qed.

(** ** Handlers that come late *)

Lemma registrations_spawnResolved ch handler child p :
  registrations ch handler (spawnResolved child p) = registrations ch handler p.
Proof. unfold registrations. by rewrite handlersOf_spawnResolved. Qed.

Lemma registrations_emitAll ch handler events p :
  registrations ch handler (emitAll events p) = registrations ch handler p.
Proof.
  revert p. induction events as [|e events IH]; intros p; [done|].
  simpl. by rewrite IH, registrations_emit.
Qed.

Lemma registrations_registerOn ch handler p :
  registrations ch handler (perform (registerOn ch handler) p)
  = S (registrations ch handler p).
Proof.
  unfold registrations.
  destruct ch; simpl; unfold on, stdout_on, stderr_on; simpl;
    rewrite filter_app, filter_cons_True, length_app by done; simpl; lia.
Qed.

(** X23. Output is not buffered for handlers that come late: a handler that
    is registered on a channel only after the command has emitted some
    events is called with the events emitted after its registration, in
    order, and with none of the earlier ones. *)
Theorem late_handler_misses_earlier_events (cmd : string) (arguments : list string)
    (before : list HandleOp) (child : Z) (earlier later : list ProcessEvent)
    (ch : Channel) (handler : Handler) :
  let registered := performAll before (spawn cmd arguments) in
  registrations ch handler registered = 0%nat →
  let final :=
    emitAll later
      (perform (registerOn ch handler)
         (emitAll earlier (spawnResolved child registered))) in
  callsTo ch handler final = payloadsOn ch later.
Proof.
  intros registered Hnone final. subst final.
  rewrite callsTo_emitAll, registrations_registerOn, registrations_emitAll,
    registrations_spawnResolved, Hnone, flat_map_replicate_once.
  unfold callsTo at 1. rewrite calls_perform.
  fold (callsTo ch handler (emitAll earlier (spawnResolved child registered))).
  rewrite callsTo_emitAll, registrations_spawnResolved, Hnone.
  unfold callsTo. rewrite calls_spawnResolved. unfold registered.
  destruct (pending_performAll before _ (pending_spawn cmd arguments))
    as (_ & _ & -> & _).
  simpl. by induction (payloadsOn ch earlier).
Qed.

(** A run with registrations, output and an exit, and no kill. *)
Lemma no_kill_without_request_witness :
  let final :=
    run [Handle (On "exit" 1%nat); Handle (StdoutOn "data" 2%nat);
         Resolve 4242; Emit (StdoutData "ready"); Emit (Close (Some 0))]
      (spawn "sidecar" ["--serve"]) in
  killed final = false ∧ killedChildren final = [].
Proof.
  refine (no_kill_without_request "sidecar" ["--serve"]
            [Handle (On "exit" 1%nat); Handle (StdoutOn "data" 2%nat);
             Resolve 4242; Emit (StdoutData "ready"); Emit (Close (Some 0))] _).
  repeat (apply Forall_cons; split; [by simpl; intros ?|]). apply Forall_nil.
  done.
Defined.

(** A command that cannot be started: the two error handlers hear of it,
    the exit and the stdout handler do not. *)
Lemma spawn_failure_reaches_the_error_handlers_witness :
  calls
    (spawnRejected "No such file or directory"
       (performAll [On "error" 1%nat; On "exit" 2%nat; StdoutOn "data" 3%nat;
                    On "error" 4%nat]
          (spawn "sidecar" ["--serve"])))
  = [{| call_channel := ErrorChannel; call_handler := 1%nat;
        call_payload := ErrorValue "No such file or directory" |};
     {| call_channel := ErrorChannel; call_handler := 4%nat;
        call_payload := ErrorValue "No such file or directory" |}].
Proof.
  exact (proj1 (spawn_failure_reaches_the_error_handlers "sidecar" ["--serve"]
                  [On "error" 1%nat; On "exit" 2%nat; StdoutOn "data" 3%nat;
                   On "error" 4%nat]
                  [] "No such file or directory" None)).
Defined.

(** A stdout handler attached after the first line was printed. *)
Lemma late_handler_misses_earlier_events_witness :
  callsTo StdoutChannel 9%nat
    (emitAll [StdoutData "second"; Close (Some 0)]
       (perform (StdoutOn "data" 9%nat)
          (emitAll [StdoutData "first"]
             (spawnResolved 4242
                (performAll [On "exit" 1%nat] (spawn "sidecar" ["--serve"]))))))
  = [BufferLike "second"].
Proof.
  refine (late_handler_misses_earlier_events "sidecar" ["--serve"]
            [On "exit" 1%nat] 4242 [StdoutData "first"]
            [StdoutData "second"; Close (Some 0)] StdoutChannel 9%nat _).
  vm_compute. reflexivity.
Defined.

End ProcessSpawner.

(* ====================================================================== *)
(** * services/plugins/pluginInitService.ts *)
(* ====================================================================== *)

Module PluginInit.
Import PluginStore.

(** ** What the service is given by its collaborators *)

(** The value of a rejected promise or a thrown exception. *)
Definition Error : Type := string.

Inductive Outcome (A : Type) :=
| Resolved (a : A)
| Rejected (error : Error).
Arguments Resolved {A} a.
Arguments Rejected {A} error.

Record PluginManifest := {
  manifest_id : string;
  manifest_name : string;
}.

(** One entry of what [discoverPlugins] returns: a manifest path with either
    the validated manifest or the validation errors. *)
Record DiscoveredPlugin := {
  manifestPath : string;
  manifest : option PluginManifest;
  errors : list string;
}.

(** Modelled from the spec: the SDK's [PluginLoader] and the platform calls
    behind [createHostAPIProvider] and [getPluginsBaseDirectory] are not part
    of these sources.  An environment fixes how each of them answers:
    whether the host provider can be built, the plugins directory (the empty
    string when there is none), what discovery under a directory yields or
    throws, and for each manifest path whether [loadPlugin] with
    [activate: true] loads and activates the plugin ([None]) or throws. *)
Record Environment := {
  hostProviderOutcome : Outcome unit;
  pluginsBaseDirectory : string;
  discoverPlugins : string → Outcome (list DiscoveredPlugin);
  loadPlugin : string → option Error;
}.

(** Modelled from the spec: of the SDK's [PluginLoader], the manifest paths
    of the plugins it has loaded and activated, in order. *)
Record PluginLoader := {
  activated : list string;
}.

(** ** A discovery with one good plugin, one that fails to load, and one
    invalid manifest *)

Definition goodPlugin : DiscoveredPlugin :=
  {| manifestPath := "/appdata/plugins/good/plugin.json";
     manifest := Some {| manifest_id := "good"; manifest_name := "Good" |};
     errors := [] |}.

Definition brokenPlugin : DiscoveredPlugin :=
  {| manifestPath := "/appdata/plugins/broken/plugin.json";
     manifest := Some {| manifest_id := "broken"; manifest_name := "Broken" |};
     errors := [] |}.

Definition invalidPlugin : DiscoveredPlugin :=
  {| manifestPath := "/appdata/plugins/invalid/plugin.json";
     manifest := None;
     errors := ["missing id"] |}.

Definition exampleEnvironment : Environment :=
  {| hostProviderOutcome := Resolved tt;
     pluginsBaseDirectory := "/appdata/plugins";
     discoverPlugins := λ _, Resolved [brokenPlugin; invalidPlugin; goodPlugin];
     loadPlugin := λ path,
       if decide (path = manifestPath brokenPlugin)
       then Some "Failed to load module"
       else None |}.

(** An environment in which the host provider cannot be built. *)
Definition failingEnvironment : Environment :=
  {| hostProviderOutcome := Rejected "no app service";
     pluginsBaseDirectory := "/appdata/plugins";
     discoverPlugins := λ _, Resolved [goodPlugin];
     loadPlugin := λ _, None |}.

Section Service.
Context {PanelComponent SettingsComponent : Type}.
Context {ToolbarButton ContextMenuItem StatusBarItem : Type}.
Context {BookKeyAccessor : Type}.

Abbreviation Store :=
  (PluginStoreState PanelComponent SettingsComponent
     ToolbarButton ContextMenuItem StatusBarItem).

(** The module-level state and the plugin store. *)
Record Runtime := {
  _loader : option PluginLoader;
  _hostProvider : option BookKeyAccessor;
  _bookKeyAccessor : option BookKeyAccessor;
  store : Store;
}.

(** An asynchronous computation over the runtime: it resolves or rejects. *)
Definition Async (A : Type) : Type := Runtime → Runtime * Outcome A.

Definition resolve {A} (a : A) : Async A := λ rt, (rt, Resolved a).

Definition await {A B} (m : Async A) (k : A → Async B) : Async B :=
  λ rt,
    match m rt with
    | (rt', Resolved a) => k a rt'
    | (rt', Rejected error) => (rt', Rejected error)
    end.

#[local] Instance Async_ret : MRet Async := @resolve.
#[local] Instance Async_bind : MBind Async := λ A B k m, await m k.

Definition tryCatch {A} (body : Async A) (handler : Error → Async A) : Async A :=
  λ rt,
    match body rt with
    | (rt', Resolved a) => (rt', Resolved a)
    | (rt', Rejected error) => handler error rt'
    end.

Definition update (f : Runtime → Runtime) : Async unit := λ rt, (f rt, Resolved tt).

Definition withStore (f : Store → Store) (rt : Runtime) : Runtime :=
  {| _loader := _loader rt; _hostProvider := _hostProvider rt;
     _bookKeyAccessor := _bookKeyAccessor rt; store := f (store rt) |}.

Definition assignBookKeyAccessor (accessor : option BookKeyAccessor) (rt : Runtime)
    : Runtime :=
  {| _loader := _loader rt; _hostProvider := _hostProvider rt;
     _bookKeyAccessor := accessor; store := store rt |}.

Definition assignHostProvider (provider : option BookKeyAccessor) (rt : Runtime)
    : Runtime :=
  {| _loader := _loader rt; _hostProvider := provider;
     _bookKeyAccessor := _bookKeyAccessor rt; store := store rt |}.

Definition assignLoader (loader : option PluginLoader) (rt : Runtime) : Runtime :=
  {| _loader := loader; _hostProvider := _hostProvider rt;
     _bookKeyAccessor := _bookKeyAccessor rt; store := store rt |}.

Variable env : Environment.

(** [createHostAPIProvider]: the provider keeps the accessor. *)
Definition createHostAPIProvider (accessor : BookKeyAccessor)
    : Async BookKeyAccessor :=
  λ rt,
    match hostProviderOutcome env with
    | Resolved _ => (rt, Resolved accessor)
    | Rejected error => (rt, Rejected error)
    end.

(** [_loader.discoverPlugins(pluginsDir)]. *)
Definition loader_discoverPlugins (pluginsDir : string)
    : Async (list DiscoveredPlugin) :=
  λ rt,
    match _loader rt with
    | Some _ => (rt, discoverPlugins env pluginsDir)
    | None => (rt, Rejected "TypeError: _loader is null")
    end.

(** [_loader.loadPlugin(manifestPath, { activate: true })]. *)
Definition loader_loadPlugin (path : string) : Async unit :=
  λ rt,
    match _loader rt with
    | Some loader =>
        match loadPlugin env path with
        | None =>
            (assignLoader (Some {| activated := activated loader ++ [path] |}) rt,
             Resolved tt)
        | Some error => (rt, Rejected error)
        end
    | None => (rt, Rejected "TypeError: _loader is null")
    end.

(** The [for] loop of step 4, with [loadedCount] threaded through. *)
Fixpoint loadDiscovered (discovered : list DiscoveredPlugin) (loadedCount : Z)
    : Async Z :=
  match discovered with
  | [] => mret loadedCount
  | plugin :: rest =>
      match manifest plugin with
      | Some _ =>
          count ← tryCatch
                    (loader_loadPlugin (manifestPath plugin);;
                     mret (loadedCount + 1))
                    (λ _error, mret loadedCount);
          loadDiscovered rest count
      | None => loadDiscovered rest loadedCount
      end
  end.

Definition initializePlugins (bookKeyAccessor : BookKeyAccessor) : Async unit :=
  update (assignBookKeyAccessor (Some bookKeyAccessor));;
  tryCatch
    (provider ← createHostAPIProvider bookKeyAccessor;
     update (assignHostProvider (Some provider));;
     update (assignLoader (Some {| activated := [] |}));;
     let pluginsDir := pluginsBaseDirectory env in
     (if JS.truthy pluginsDir then
        discovered ← loader_discoverPlugins pluginsDir;
        loadedCount ← loadDiscovered discovered 0;
        update (withStore (setPluginCount loadedCount))
      else update (withStore (setPluginCount 0)));;
     update (withStore (setInitialized true)))
    (λ _error,
       update (withStore (setPluginCount 0));;
       update (withStore (setInitialized true))).

(** The plugins the loader has activated. *)
Definition activatedPlugins (rt : Runtime) : list string :=
  match _loader rt with
  | Some loader => activated loader
  | None => []
  end.

(** A discovered plugin that the loop loads: its manifest is valid and its
    module loads and activates. *)
Definition loads (plugin : DiscoveredPlugin) : Prop :=
  is_Some (manifest plugin) ∧ loadPlugin env (manifestPath plugin) = None.

#[local] Instance loads_dec (plugin : DiscoveredPlugin) : Decision (loads plugin).
Proof. unfold loads. apply _. Defined.

(** ** Shutdown and the accessors of the module state *)

(** Modelled from the spec: [unloadAll] of the SDK's loader is not part of
    these sources.  It calls each plugin's [onUnload] and disposes the
    plugin's resources, which is where the plugin's registrations in the
    store are cleaned up.  One run of it is described by what it did to the
    store ([disposal]), the plugins it left activated ([remaining], none
    when it resolved) and whether it rejected ([failure]). *)
Record Unloading := {
  disposal : Store → Store;
  remaining : list string;
  failure : option Error;
}.

(** [_loader.unloadAll()]. *)
Definition loader_unloadAll (unloading : Unloading) : Async unit :=
  λ rt,
    match _loader rt with
    | Some loader =>
        match failure unloading with
        | None =>
            (withStore (disposal unloading)
               (assignLoader (Some {| activated := [] |}) rt),
             Resolved tt)
        | Some error =>
            (withStore (disposal unloading)
               (assignLoader (Some {| activated := remaining unloading |}) rt),
             Rejected error)
        end
    | None => (rt, Rejected "TypeError: _loader is null")
    end.

Definition shutdownPlugins (unloading : Unloading) : Async unit :=
  (λ rt,
     match _loader rt with
     | Some _ =>
         tryCatch (loader_unloadAll unloading) (λ _error, mret tt) rt
     | None => (rt, Resolved tt)
     end);;
  update (assignLoader None);;
  update (assignHostProvider None);;
  update (assignBookKeyAccessor None);;
  update (withStore (setPluginCount 0));;
  update (withStore (setInitialized false)).

(** The accessor is a function of the host application's state: [callAccessor]
    runs it on the state the host is in at the time of the call. *)
Context {HostState : Type}.
Variable callAccessor : BookKeyAccessor → HostState → option string.

(** [_bookKeyAccessor?.() ?? null], called while the host is in state [h]. *)
Definition getCurrentBookKey (rt : Runtime) (h : HostState) : option string :=
  _bookKeyAccessor rt ≫= (λ accessor, callAccessor accessor h).

Definition getPluginLoader (rt : Runtime) : option PluginLoader := _loader rt.

(** ** The loading loop *)

(** With a loader in place the loop never rejects: it activates exactly the
    plugins that load, in discovery order, counts them, and leaves the store
    alone. *)
Lemma loadDiscovered_resolves discovered loadedCount rt loader :
  _loader rt = Some loader →
  ∃ rt',
    loadDiscovered discovered loadedCount rt
    = (rt', Resolved (loadedCount
                      + Z.of_nat (length (filter loads discovered))))
    ∧ store rt' = store rt
    ∧ _loader rt'
      = Some {| activated :=
                  activated loader ++ (manifestPath <$> filter loads discovered) |}.
Proof.
  revert loadedCount rt loader.
  induction discovered as [|plugin rest IH]; intros loadedCount rt loader Hloader.
  - exists rt. simpl. unfold mret, Async_ret, resolve.
    rewrite Z.add_0_r, app_nil_r.
    repeat split; try done. rewrite Hloader. by destruct loader.
  - simpl.
    destruct (manifest plugin) as [m|] eqn:Hmanifest.
    + unfold mbind, Async_bind, await, tryCatch, loader_loadPlugin.
      rewrite Hloader.
      destruct (loadPlugin env (manifestPath plugin)) as [error|] eqn:Hload.
      * simpl. rewrite filter_cons_False
          by (unfold loads; rewrite Hload; intros [_ ?]; done).
        apply IH. exact Hloader.
      * simpl. rewrite filter_cons_True
          by (unfold loads; rewrite Hmanifest; split; [eauto | done]).
        destruct (IH (loadedCount + 1)
                    (assignLoader
                       (Some {| activated := activated loader ++ [manifestPath plugin] |})
                       rt)
                    {| activated := activated loader ++ [manifestPath plugin] |}
                    eq_refl)
          as (rt' & Hrun & Hstore & Hafter).
        exists rt'. rewrite Hrun, Hstore, Hafter. repeat split.
        -- do 2 f_equal. simpl. lia.
        -- simpl. by rewrite <- (assoc_L (++)).
    + rewrite filter_cons_False
        by (unfold loads; rewrite Hmanifest; intros [[? ?] _]; done).
      apply IH. exact Hloader.
Qed.

(** The run of [initializePlugins], case by case. *)
Lemma initializePlugins_run (bookKeyAccessor : BookKeyAccessor) (rt : Runtime) :
  ∃ rt',
    initializePlugins bookKeyAccessor rt = (rt', Resolved tt)
    ∧ initialized (store rt') = true
    ∧ ∀ discovered,
        hostProviderOutcome env = Resolved tt →
        JS.truthy (pluginsBaseDirectory env) = true →
        discoverPlugins env (pluginsBaseDirectory env) = Resolved discovered →
        activatedPlugins rt' = manifestPath <$> filter loads discovered
        ∧ pluginCount (store rt') = Z.of_nat (length (filter loads discovered)).
Proof.
  unfold initializePlugins, mbind, Async_bind, await, update, tryCatch,
    createHostAPIProvider, loader_discoverPlugins.
  destruct (hostProviderOutcome env) as [[]|error] eqn:Hprovider.
  2:{ eexists. repeat split; try done. }
  destruct (JS.truthy (pluginsBaseDirectory env)) eqn:Hdir.
  2:{ eexists. repeat split; try done. }
  simpl.
  destruct (discoverPlugins env (pluginsBaseDirectory env))
    as [discovered|error] eqn:Hdiscover.
  2:{ eexists. repeat split; try done. }
  destruct (loadDiscovered_resolves discovered 0
              (assignLoader (Some {| activated := [] |})
                 (assignHostProvider (Some bookKeyAccessor)
                    (assignBookKeyAccessor (Some bookKeyAccessor) rt)))
              {| activated := [] |} eq_refl)
    as (rt' & Hrun & Hstore & Hloader).
  rewrite Hrun. eexists. split; [reflexivity|]. split; [done|].
  intros discovered' _ _ [= <-]. split; [|done].
  unfold activatedPlugins. simpl. by rewrite Hloader.
Qed.

(** C2. [initializePlugins] always resolves, and the store is marked
    initialized whatever happened: a collaborator that rejected, a failed
    discovery, no plugin at all.  When discovery yields a valid manifest M1
    whose plugin loads and activates and a valid manifest M2 whose plugin
    fails to load, M1 is among the activated plugins and M2 is not. *)
Theorem initialize_isolates_plugin_failures
    (bookKeyAccessor : BookKeyAccessor) (rt : Runtime) :
  let out := initializePlugins bookKeyAccessor rt in
  out.2 = Resolved tt
  ∧ initialized (store out.1) = true
  ∧ ∀ discovered M1 M2,
      hostProviderOutcome env = Resolved tt →
      JS.truthy (pluginsBaseDirectory env) = true →
      discoverPlugins env (pluginsBaseDirectory env) = Resolved discovered →
      M1 ∈ discovered → is_Some (manifest M1) →
      loadPlugin env (manifestPath M1) = None →
      M2 ∈ discovered → is_Some (manifest M2) →
      is_Some (loadPlugin env (manifestPath M2)) →
      (manifestPath M1 ∈ activatedPlugins out.1)
      ∧ (manifestPath M2 ∉ activatedPlugins out.1)
      ∧ pluginCount (store out.1) = Z.of_nat (length (filter loads discovered)).
Proof.
  intros out. subst out.
  destruct (initializePlugins_run bookKeyAccessor rt)
    as (rt' & -> & Hinit & Hloaded).
  simpl. split; [done|]. split; [done|].
  intros discovered M1 M2 Hprovider Hdir Hdiscover
    HM1 Hvalid1 Hload1 HM2 Hvalid2 Hload2.
  destruct (Hloaded discovered Hprovider Hdir Hdiscover) as [-> Hcount].
  repeat split.
  - apply (list_elem_of_fmap_2 manifestPath). apply list_elem_of_filter.
    by repeat split.
  - intros Hin. apply list_elem_of_fmap in Hin as (plugin & Hpath & Hplugin).
    apply list_elem_of_filter in Hplugin as [[_ Hloadsp] _].
    rewrite <- Hpath in Hloadsp. rewrite Hloadsp in Hload2. by destruct Hload2.
  - done.
Qed.

(** ** What a run keeps of the module state *)

Lemma loadDiscovered_keeps_accessors discovered loadedCount rt :
  _bookKeyAccessor (loadDiscovered discovered loadedCount rt).1
  = _bookKeyAccessor rt
  ∧ _hostProvider (loadDiscovered discovered loadedCount rt).1
    = _hostProvider rt.
Proof.
  revert loadedCount rt.
  induction discovered as [|plugin rest IH]; intros loadedCount rt; [done|].
  simpl. destruct (manifest plugin) as [m|]; [|apply IH].
  unfold mbind, Async_bind, await, tryCatch, loader_loadPlugin.
  destruct (_loader rt) as [loader|]; [|apply IH].
  destruct (loadPlugin env (manifestPath plugin)) as [error|]; simpl.
  - apply IH.
  - destruct (IH (loadedCount + 1)
                (assignLoader
                   (Some {| activated := activated loader ++ [manifestPath plugin] |})
                   rt)) as [-> ->]. done.
Qed.

(** X24. Shutting down always resolves and resets the service, whether
    there was a loader or not and whatever [unloadAll] did: resolved or
    rejected, with any effect on the store.  The loader, the host provider
    and the book-key accessor are null, [getCurrentBookKey] answers null,
    the plugin count is 0 and the store is no longer marked initialized.
    Of the store, shutdown itself sets these two fields and nothing else:
    what else differs afterwards is what [unloadAll] did to it, and without
    a loader nothing else differs. *)
Theorem shutdown_resets_the_service (unloading : Unloading)
    (rt : Runtime) (h : HostState) :
  let out := shutdownPlugins unloading rt in
  out.2 = Resolved tt
  ∧ getPluginLoader out.1 = None
  ∧ _hostProvider out.1 = None
  ∧ _bookKeyAccessor out.1 = None
  ∧ getCurrentBookKey out.1 h = None
  ∧ pluginCount (store out.1) = 0
  ∧ initialized (store out.1) = false
  ∧ store out.1
    = setInitialized false
        (setPluginCount 0
           (match getPluginLoader rt with
            | Some _ => disposal unloading (store rt)
            | None => store rt
            end)).
Proof.
  intros out. subst out.
  unfold shutdownPlugins, mbind, Async_bind, await, update, tryCatch,
    loader_unloadAll, getCurrentBookKey, getPluginLoader.
  destruct (_loader rt) as [loader|]; [destruct (failure unloading) as [error|]|];
    simpl; by repeat split.
Qed.

(** X25. The service's book key is read when it is asked for: after
    [initializePlugins accessor], however the initialization went,
    [getCurrentBookKey] answers what the accessor answers in the state the
    host is in at that moment, so it follows the user from book to book. *)
Theorem current_book_key_is_read_at_call_time
    (bookKeyAccessor : BookKeyAccessor) (rt : Runtime) (h : HostState) :
  getCurrentBookKey (initializePlugins bookKeyAccessor rt).1 h
  = callAccessor bookKeyAccessor h.
Proof.
  assert (_bookKeyAccessor (initializePlugins bookKeyAccessor rt).1
          = Some bookKeyAccessor) as Hkept.
  { unfold initializePlugins, mbind, Async_bind, await, update, tryCatch,
      createHostAPIProvider, loader_discoverPlugins.
    destruct (hostProviderOutcome env) as [[]|error]; [|done].
    destruct (JS.truthy (pluginsBaseDirectory env)); [|done]. simpl.
    destruct (discoverPlugins env (pluginsBaseDirectory env))
      as [discovered|error]; [|done].
    pose proof (loadDiscovered_keeps_accessors discovered 0
                  (assignLoader (Some {| activated := [] |})
                     (assignHostProvider (Some bookKeyAccessor)
                        (assignBookKeyAccessor (Some bookKeyAccessor) rt))))
      as [Hacc _].
    destruct (loadDiscovered discovered 0 _) as [rt' [count|error]];
      simpl in *; exact Hacc. }
  unfold getCurrentBookKey. by rewrite Hkept.
Qed.

(** X26. An initialization that finds nothing to load.  When the host
    provider cannot be built, the run changes the book-key accessor, the
    plugin count (0) and the initialized mark (true) and nothing else: the
    loader and the host provider are the ones from before the call.  When
    the provider is built but there is no plugins directory, or discovery
    rejects, a fresh loader with no activated plugin is in place and the
    count is 0. *)
Theorem initialization_with_nothing_to_load
    (bookKeyAccessor : BookKeyAccessor) (rt : Runtime) :
  let out := initializePlugins bookKeyAccessor rt in
  ((∃ error, hostProviderOutcome env = Rejected error) →
     out.1 = withStore (setInitialized true)
               (withStore (setPluginCount 0)
                  (assignBookKeyAccessor (Some bookKeyAccessor) rt)))
  ∧ (hostProviderOutcome env = Resolved tt →
     JS.truthy (pluginsBaseDirectory env) = false
     ∨ (∃ error, discoverPlugins env (pluginsBaseDirectory env) = Rejected error) →
     getPluginLoader out.1 = Some {| activated := [] |}
     ∧ _hostProvider out.1 = Some bookKeyAccessor
     ∧ pluginCount (store out.1) = 0
     ∧ initialized (store out.1) = true).
Proof.
  intros out. subst out.
  unfold initializePlugins, mbind, Async_bind, await, update, tryCatch,
    createHostAPIProvider, loader_discoverPlugins, getPluginLoader.
  split.
  - intros [error ->]. done.
  - intros -> [Hdir | [error Hdiscover]].
    + by rewrite Hdir.
    + destruct (JS.truthy (pluginsBaseDirectory env)); [|done]. simpl.
      by rewrite Hdiscover.
Qed.

End Service.

Arguments Runtime : clear implicits.

(** Initialization over the example discovery, from an empty runtime. *)
Lemma initialize_isolates_plugin_failures_witness :
  let rt : Runtime unit unit LabelledEntry LabelledEntry LabelledEntry unit :=
    {| _loader := None; _hostProvider := None; _bookKeyAccessor := None;
       store := initialState |} in
  let out := initializePlugins exampleEnvironment tt rt in
  out.2 = Resolved tt
  ∧ initialized (store out.1) = true
  ∧ (manifestPath goodPlugin ∈ activatedPlugins out.1)
  ∧ (manifestPath brokenPlugin ∉ activatedPlugins out.1)
  ∧ pluginCount (store out.1) = 1.
Proof.
  intros rt.
  pose proof (initialize_isolates_plugin_failures exampleEnvironment tt rt)
    as (Hresolved & Hinitialized & Hisolated).
  assert (goodPlugin ∈ [brokenPlugin; invalidPlugin; goodPlugin]) as Hgood
    by (do 2 apply list_elem_of_further; apply list_elem_of_here).
  assert (brokenPlugin ∈ [brokenPlugin; invalidPlugin; goodPlugin]) as Hbroken
    by apply list_elem_of_here.
  destruct (Hisolated [brokenPlugin; invalidPlugin; goodPlugin]
              goodPlugin brokenPlugin eq_refl eq_refl eq_refl
              Hgood ltac:(vm_compute; eauto) eq_refl
              Hbroken ltac:(vm_compute; eauto) ltac:(vm_compute; eauto))
    as (Hactivated & Hnot & Hcount).
  repeat split; try done.
Defined.

(** With no app service the run leaves an empty runtime without a
    loader. *)
Lemma initialization_with_nothing_to_load_witness :
  let rt : Runtime unit unit LabelledEntry LabelledEntry LabelledEntry unit :=
    {| _loader := None; _hostProvider := None; _bookKeyAccessor := None;
       store := initialState |} in
  (initializePlugins failingEnvironment tt rt).1
  = withStore (setInitialized true)
      (withStore (setPluginCount 0) (assignBookKeyAccessor (Some tt) rt)).
Proof.
  intros rt.
  apply (proj1 (initialization_with_nothing_to_load failingEnvironment tt rt)).
  by exists "no app service".
Defined.

End PluginInit.

(* ====================================================================== *)
(** * services/plugins/providers/TauriFileSystem.ts, the web fallback *)
(* ====================================================================== *)

Module WebFileSystem.

Definition LS_PREFIX : string := "__readest_plugin_fs__:".

(** Modelled from the spec: the browser's [localStorage] is not part of
    these sources.  It is a finite map from keys to values; [setItem] is
    taken within the quota, so it does not throw; [key(i)] enumerates the
    keys in the store's own order. *)
Abbreviation LocalStorage := (gmap string string).

Definition keys (ls : LocalStorage) : list string := (map_to_list ls).*1.

(** What a call throws: the [Error] of the module, or the
    [InvalidCharacterError] of [atob]. *)
Inductive FsError :=
| FileNotFound (path : string)
| InvalidCharacterError.

Definition message (e : FsError) : string :=
  match e with
  | FileNotFound path => "File not found: " +:+ path
  | InvalidCharacterError => "InvalidCharacterError"
  end.

Inductive Result (A : Type) :=
| Returns (a : A)
| Throws (e : FsError).
Arguments Returns {A} a.
Arguments Throws {A} e.

Section FileSystem.
(** The platform's base64 functions on binary strings: [btoa] is total on
    strings of bytes, [atob] throws on a text that is not base64. *)
Variable btoa : string → string.
Variable atob : string → option string.
Hypothesis atob_btoa : ∀ binary, atob (btoa binary) = Some binary.

Definition uint8ArrayToBase64 (data : list Byte.byte) : string :=
  btoa (string_of_list_byte data).

Definition base64ToUint8Array (base64 : string) : Result (list Byte.byte) :=
  match atob base64 with
  | Some binary => Returns (list_byte_of_string binary)
  | None => Throws InvalidCharacterError
  end.

Definition readFile (path : string) (ls : LocalStorage)
    : Result (list Byte.byte) :=
  match ls !! (LS_PREFIX +:+ path) with
  | None => Throws (FileNotFound path)
  | Some data => base64ToUint8Array data
  end.

Definition writeFile (path : string) (data : list Byte.byte) (ls : LocalStorage)
    : LocalStorage :=
  <[LS_PREFIX +:+ path := uint8ArrayToBase64 data]> ls.

Definition deleteFile (path : string) (ls : LocalStorage)
    : LocalStorage * Result unit :=
  match ls !! (LS_PREFIX +:+ path) with
  | None => (ls, Throws (FileNotFound path))
  | Some _ => (delete (LS_PREFIX +:+ path) ls, Returns tt)
  end.

Definition normalizedDir (dirPath : string) : string :=
  if JS.endsWith_char "/" dirPath then dirPath else dirPath +:+ "/".

Definition listFiles (dirPath : string) (ls : LocalStorage) : list string :=
  let prefix := LS_PREFIX +:+ normalizedDir dirPath in
  omap (λ key,
          if JS.truthy key && JS.startsWith prefix key then
            let relativePath := JS.substring_from (String.length prefix) key in
            if negb (JS.includes_char "/" relativePath)
            then Some relativePath else None
          else None)
       (keys ls).

Definition exists_ (path : string) (ls : LocalStorage) : bool :=
  bool_decide (is_Some (ls !! (LS_PREFIX +:+ path))).

Definition mkdir (_path : string) (ls : LocalStorage) : LocalStorage := ls.

Definition getWebPluginDataBasePath : string := "/readest/plugins".

(** ** Keys and paths *)

Lemma key_inj (path other : string) :
  LS_PREFIX +:+ path = LS_PREFIX +:+ other → path = other.
Proof. apply (inj (String.app LS_PREFIX)). Qed.

Lemma exists_true (path : string) (ls : LocalStorage) :
  exists_ path ls = true ↔ is_Some (ls !! (LS_PREFIX +:+ path)).
Proof. unfold exists_. apply bool_decide_eq_true. Qed.

Lemma elem_of_keys (key : string) (ls : LocalStorage) :
  key ∈ keys ls ↔ is_Some (ls !! key).
Proof.
  unfold keys. rewrite list_elem_of_fmap. split.
  - intros ([k v] & -> & Hkv). apply elem_of_map_to_list in Hkv. by eexists.
  - intros [v Hv]. exists (key, v). split; [done|].
    by apply elem_of_map_to_list.
Qed.

Lemma listFiles_spec (dirPath name : string) (ls : LocalStorage) :
  name ∈ listFiles dirPath ls
  ↔ JS.includes_char "/" name = false
    ∧ exists_ (normalizedDir dirPath +:+ name) ls = true.
Proof.
  unfold listFiles. rewrite list_elem_of_omap, exists_true.
  rewrite <- JS.append_assoc. split.
  - intros (key & Hkey & Hname).
    destruct (JS.truthy key); [|done].
    destruct (JS.startsWith (LS_PREFIX +:+ normalizedDir dirPath) key) eqn:Hstarts;
      [|done].
    apply JS.startsWith_true in Hstarts. cbn [andb] in Hname.
    destruct (JS.includes_char "/" _) eqn:Hslash; [done|].
    cbn [negb] in Hname. apply (inj Some) in Hname. subst name.
    split; [done|].
    rewrite <- Hstarts. by apply elem_of_keys.
  - intros [Hslash Hstored].
    exists ((LS_PREFIX +:+ normalizedDir dirPath) +:+ name).
    split; [by apply elem_of_keys|].
    rewrite JS.startsWith_app, JS.substring_from_app, Hslash.
    rewrite JS.append_assoc. done.
Qed.

(** ** Listing *)

(** X27. [listFiles] lists the direct children of a directory: a name is
    listed exactly when it has no slash and a file exists under the
    directory's path followed by a slash and the name.  A slash at the end
    of the directory's path makes no difference. *)
Theorem listed_files_are_the_direct_children (dirPath : string)
    (ls : LocalStorage) :
  (∀ name, name ∈ listFiles dirPath ls
           ↔ JS.includes_char "/" name = false
             ∧ exists_ (normalizedDir dirPath +:+ name) ls = true)
  ∧ listFiles (normalizedDir dirPath) ls = listFiles dirPath ls.
Proof.
  split; [intros name; apply listFiles_spec|].
  unfold listFiles. f_equal.
  assert (normalizedDir (normalizedDir dirPath) = normalizedDir dirPath) as ->;
    [|done].
  unfold normalizedDir at 2 3.
  destruct (JS.endsWith_char "/" dirPath) eqn:Hends.
  - unfold normalizedDir. by rewrite Hends.
  - unfold normalizedDir. by rewrite JS.endsWith_char_app.
Qed.

(** ** Reading, writing, deleting *)

(** X28. What is written is read back, byte for byte, and the file exists;
    a second write to the same path replaces the first; and no other path
    is affected, neither what is read from it nor whether it exists. *)
Theorem written_file_is_read_back (path : string) (data data' : list Byte.byte)
    (ls : LocalStorage) :
  readFile path (writeFile path data ls) = Returns data
  ∧ exists_ path (writeFile path data ls) = true
  ∧ writeFile path data (writeFile path data' ls) = writeFile path data ls
  ∧ (∀ other, other ≠ path →
       readFile other (writeFile path data ls) = readFile other ls
       ∧ exists_ other (writeFile path data ls) = exists_ other ls).
Proof.
  unfold readFile, writeFile, exists_, base64ToUint8Array, uint8ArrayToBase64.
  split; [|split; [|split]].
  - rewrite lookup_insert_eq, atob_btoa.
    by rewrite list_byte_of_string_of_list_byte.
  - rewrite lookup_insert_eq. by apply bool_decide_eq_true.
  - apply insert_insert_eq.
  - intros other Hother.
    assert (LS_PREFIX +:+ path ≠ LS_PREFIX +:+ other) as Hkey.
    { intros Heq. apply Hother. symmetry. by apply key_inj. }
    by rewrite !lookup_insert_ne.
Qed.

(** X29. Deleting.  A file that does not exist cannot be read or deleted:
    both calls throw 'File not found' with the path, and the storage is left
    as it was.  Deleting a file that exists succeeds, after which the file
    does not exist, reading and deleting it again throw, and every other
    path is as before. *)
Theorem deleted_file_is_gone (path : string) (ls : LocalStorage) :
  (exists_ path ls = false →
     deleteFile path ls = (ls, Throws (FileNotFound path))
     ∧ readFile path ls = Throws (FileNotFound path))
  ∧ (exists_ path ls = true →
     let ls' := (deleteFile path ls).1 in
     (deleteFile path ls).2 = Returns tt
     ∧ exists_ path ls' = false
     ∧ readFile path ls' = Throws (FileNotFound path)
     ∧ deleteFile path ls' = (ls', Throws (FileNotFound path))
     ∧ ∀ other, other ≠ path →
         readFile other ls' = readFile other ls
         ∧ exists_ other ls' = exists_ other ls).
Proof.
  split.
  - intros Hmissing. apply bool_decide_eq_false in Hmissing.
    unfold deleteFile, readFile.
    destruct (ls !! (LS_PREFIX +:+ path)) as [stored|]; [|done].
    destruct Hmissing. by eexists.
  - intros Hexists ls'. apply exists_true in Hexists as [stored Hstored].
    subst ls'. unfold deleteFile, readFile, exists_. rewrite Hstored. simpl.
    rewrite !lookup_delete_eq.
    split; [done|]. split; [by apply bool_decide_eq_false; intros [? ?]|].
    split; [done|]. split; [done|].
    intros other Hother.
    assert (LS_PREFIX +:+ path ≠ LS_PREFIX +:+ other) as Hkey.
    { intros Heq. apply Hother. symmetry. by apply key_inj. }
    by rewrite !lookup_delete_ne.
Qed.

(** X30. Directories are implicit: a file written under a directory's path
    with a name without slash is listed in the directory from then on, with
    no [mkdir] before, and is no longer listed once it is deleted. *)
Theorem written_file_is_listed_until_deleted (dirPath name : string)
    (data : list Byte.byte) (ls : LocalStorage) :
  JS.includes_char "/" name = false →
  let path := normalizedDir dirPath +:+ name in
  name ∈ listFiles dirPath (writeFile path data ls)
  ∧ name ∉ listFiles dirPath (deleteFile path (writeFile path data ls)).1.
Proof.
  intros Hslash path. split.
  - apply listFiles_spec. split; [done|].
    apply exists_true. unfold writeFile. rewrite lookup_insert_eq. by eexists.
  - rewrite listFiles_spec. intros [_ Hexists].
    apply exists_true in Hexists as [stored Hstored].
    unfold deleteFile, writeFile in Hstored.
    rewrite lookup_insert_eq in Hstored. simpl in Hstored.
    by rewrite lookup_delete_eq in Hstored.
Qed.

End FileSystem.

(** A file of three bytes, with a base64 that is the identity. *)
Lemma written_file_is_read_back_witness :
  readFile Some "/readest/plugins/p/data/notes.json"
    (writeFile (λ binary, binary) "/readest/plugins/p/data/notes.json"
       [Byte.x7b; Byte.x7d; Byte.x0a] ∅)
  = Returns [Byte.x7b; Byte.x7d; Byte.x0a].
Proof.
  exact (proj1 (written_file_is_read_back (λ binary, binary) Some
                  (λ binary, eq_refl) "/readest/plugins/p/data/notes.json"
                  [Byte.x7b; Byte.x7d; Byte.x0a] [] ∅)).
Defined.

(** Deleting from an empty storage. *)
Lemma deleted_file_is_gone_witness :
  deleteFile "/readest/plugins/p/data/notes.json" ∅
  = (∅, Throws (FileNotFound "/readest/plugins/p/data/notes.json")).
Proof.
  exact (proj1 (proj1 (deleted_file_is_gone Some
                         "/readest/plugins/p/data/notes.json" ∅)
                  eq_refl)).
Defined.

(** A file written under the data directory of a plugin. *)
Lemma written_file_is_listed_until_deleted_witness :
  "notes.json"
  ∈ listFiles "/readest/plugins/p/data"
      (writeFile (λ binary, binary)
         (normalizedDir "/readest/plugins/p/data" +:+ "notes.json")
         [Byte.x7b; Byte.x7d] ∅).
Proof.
  exact (proj1 (written_file_is_listed_until_deleted (λ binary, binary)
                  "/readest/plugins/p/data" "notes.json" [Byte.x7b; Byte.x7d] ∅
                  eq_refl)).
Defined.

End WebFileSystem.
